(** * ppgs: the inference-time feature pipeline

    A shallow embedding of [ppgs/core.py] and [ppgs/preprocess/encodec.py]:
    the model cache kept in the attributes of [from_audio], the checkpoint
    binding with its remap-and-retry fallback, the file and batch entry
    points, the resampling utility, and the EnCodec representation with its
    cached resampler.

    Python objects that are mutated in place (the [nn.Module] instances) live
    in a store addressed by references; function attributes, the file system
    and a log of the effectful calls are fields of an explicit state that is
    threaded through every operation.  A raised exception keeps the state
    reached so far, as in Python. *)

From Stdlib Require Import String Ascii List ZArith Bool Arith Lia.
Import ListNotations.

Set Implicit Arguments.

(* ================================================================== *)
(** ** Tensors, devices, exceptions *)
(* ================================================================== *)

(** A tensor is a shape and its flattened row-major storage.  Element values
    are kept as opaque storage words: no claim depends on their arithmetic. *)
Record tensor : Type := mkTensor { shape : list nat; storage : list Z }.

(** [torch.device('cpu' if gpu is None else f'cuda:{gpu}')] *)
Inductive device : Type := Cpu | Cuda (index : Z).

Definition device_of (gpu : option Z) : device :=
  match gpu with
  | None => Cpu
  | Some g => Cuda g
  end.

(** The reasons [load_state_dict] collects before it raises. *)
Inductive load_error : Type :=
| MissingKey (key : string)
| UnexpectedKey (key : string)
| SizeMismatch (key : string).

(** Python exception classes.  [RuntimeError] stands for the class and its
    subclasses (what [except RuntimeError] catches); every other class is
    named. *)
Inductive exn_class : Type :=
| RuntimeError
| OtherError (name : string).

(** An exception: its class, the binding errors it reports (empty for
    exceptions that are not binding failures) and its implicit
    [__context__], the exception that was being handled when it was raised. *)
#[warnings="-register-all"]
Inductive exn : Type :=
| Exn (cls : exn_class) (detail : list load_error) (context : option exn).

Definition exn_cls (e : exn) : exn_class := let 'Exn c _ _ := e in c.
Definition exn_detail (e : exn) : list load_error := let 'Exn _ d _ := e in d.
Definition exn_context (e : exn) : option exn := let 'Exn _ _ c := e in c.

Definition is_RuntimeError (e : exn) : bool :=
  match exn_cls e with
  | RuntimeError => true
  | OtherError _ => false
  end.

(** Raising [e] while [handled] is being handled: Python records [handled]
    as the context of the new exception. *)
Definition raised_while_handling (handled e : exn) : exn :=
  Exn (exn_cls e) (exn_detail e) (Some handled).

Inductive result (A : Type) : Type :=
| Ok (a : A)
| Raise (e : exn).
Arguments Ok {A} a.
Arguments Raise {A} e.

Definition is_ok {A} (r : result A) : bool :=
  match r with Ok _ => true | Raise _ => false end.

(* ================================================================== *)
(** ** The state-and-exception monad *)
(* ================================================================== *)

(** A computation over a state [S]: it returns a value or raises, and in
    both cases yields the state it reached. *)
Definition M (S A : Type) : Type := S -> result A * S.

Definition ret {S A} (a : A) : M S A := fun s => (Ok a, s).

Definition raise {S A} (e : exn) : M S A := fun s => (Raise e, s).

Definition bind {S A B} (c : M S A) (k : A -> M S B) : M S B :=
  fun s =>
    match c s with
    | (Ok a, s') => k a s'
    | (Raise e, s') => (Raise e, s')
    end.

Definition get {S} : M S S := fun s => (Ok s, s).

Definition modify {S} (f : S -> S) : M S unit := fun s => (Ok tt, f s).

(** Lift a pure fallible value. *)
Definition lift {S A} (r : result A) : M S A := fun s => (r, s).

(** [try: c except RuntimeError: h].  Only exceptions of class
    [RuntimeError] enter the handler; whatever the handler raises carries
    the handled exception as its context. *)
Definition try_except_RuntimeError {S A} (c : M S A) (h : M S A) : M S A :=
  fun s =>
    match c s with
    | (Ok a, s') => (Ok a, s')
    | (Raise e, s') =>
        if is_RuntimeError e then
          match h s' with
          | (Ok a, s'') => (Ok a, s'')
          | (Raise e', s'') => (Raise (raised_while_handling e e'), s'')
          end
        else (Raise e, s')
    end.

Declare Scope monad_scope.
Delimit Scope monad_scope with monad.
Notation "x <- c ;; k" := (bind c (fun x => k))
  (at level 100, c at next level, right associativity) : monad_scope.
Notation "c ;;; k" := (bind c (fun _ => k))
  (at level 100, right associativity) : monad_scope.

(** [for x in xs: f x] *)
Fixpoint for_each {S A} (f : A -> M S unit) (xs : list A) : M S unit :=
  match xs with
  | [] => ret tt
  | x :: xs' => bind (f x) (fun _ => for_each f xs')
  end.

(** A list comprehension whose element expression may raise. *)
Fixpoint map_result {A B} (f : A -> result B) (xs : list A) : result (list B) :=
  match xs with
  | [] => Ok []
  | x :: xs' =>
      match f x with
      | Raise e => Raise e
      | Ok y =>
          match map_result f xs' with
          | Raise e => Raise e
          | Ok ys => Ok (y :: ys)
          end
      end
  end.

(* ================================================================== *)
(** ** Ordered dictionaries with string keys *)
(* ================================================================== *)

(** A Python [dict] with string keys: insertion-ordered, keys unique. *)
Definition dict (V : Type) : Type := list (string * V).

Fixpoint dict_get {V} (k : string) (d : dict V) : option V :=
  match d with
  | [] => None
  | (k', v) :: d' => if String.eqb k k' then Some v else dict_get k d'
  end.

(** [d[k] = v]: overwrite in place when [k] is bound, append otherwise. *)
Fixpoint dict_set {V} (k : string) (v : V) (d : dict V) : dict V :=
  match d with
  | [] => [(k, v)]
  | (k', v') :: d' =>
      if String.eqb k k' then (k, v) :: d' else (k', v') :: dict_set k v d'
  end.

Definition dict_keys {V} (d : dict V) : list string := map fst d.

Definition dict_mem {V} (k : string) (d : dict V) : bool :=
  match dict_get k d with Some _ => true | None => false end.

(** A checkpoint's parameter mapping. *)
Definition state_dict : Type := dict tensor.

(* ================================================================== *)
(** ** Paths ([pathlib.PurePosixPath]) *)
(* ================================================================== *)

Module Pathlib.

(** A path is its anchor (["/"] or the empty string) and its components. *)
Record Path : Type := mkPath { anchor : string; parts : list string }.

(** [p.name]: the final component, empty when there is none. *)
Definition name (p : Path) : string := last (parts p) EmptyString.

(** [p.parent], for a path that has a final component. *)
Definition parent (p : Path) : Path :=
  mkPath (anchor p) (removelast (parts p)).

Definition is_dot (c : ascii) : bool := Ascii.eqb c "."%char.

(** [s.rfind('.')], with [None] for Python's [-1]. *)
Fixpoint rfind_dot (s : string) : option nat :=
  match s with
  | EmptyString => None
  | String c s' =>
      match rfind_dot s' with
      | Some i => Some (S i)
      | None => if is_dot c then Some 0 else None
      end
  end.

(** [s[i:]] and [s[:i]] *)
Fixpoint drop (i : nat) (s : string) : string :=
  match i, s with
  | O, _ => s
  | S i', String _ s' => drop i' s'
  | S _, EmptyString => EmptyString
  end.

Fixpoint take (i : nat) (s : string) : string :=
  match i, s with
  | O, _ => EmptyString
  | S i', String c s' => String c (take i' s')
  | S _, EmptyString => EmptyString
  end.

(** The position of the dot that starts the suffix, when
    [0 < i < len(name) - 1] holds for [i = name.rfind('.')]. *)
Definition suffix_start (nm : string) : option nat :=
  match rfind_dot nm with
  | Some i =>
      if (0 <? i) && (i <? String.length nm - 1) then Some i else None
  | None => None
  end.

(** [p.suffix] and [p.stem], on the final component. *)
Definition suffix_of (nm : string) : string :=
  match suffix_start nm with
  | Some i => drop i nm
  | None => EmptyString
  end.

Definition stem_of (nm : string) : string :=
  match suffix_start nm with
  | Some i => take i nm
  | None => nm
  end.

Definition suffix (p : Path) : string := suffix_of (name p).
Definition stem (p : Path) : string := stem_of (name p).

Fixpoint contains_sep (s : string) : bool :=
  match s with
  | EmptyString => false
  | String c s' => Ascii.eqb c "/"%char || contains_sep s'
  end.

Definition starts_with_dot (s : string) : bool :=
  match s with
  | String c _ => is_dot c
  | EmptyString => false
  end.

Definition ValueError : exn := Exn (OtherError "ValueError") [] None.

(** [p.with_suffix(suffix)] *)
Definition with_suffix (p : Path) (sfx : string) : result Path :=
  if contains_sep sfx then Raise ValueError
  else if (negb (String.eqb sfx EmptyString) && negb (starts_with_dot sfx))
          || String.eqb sfx "." then Raise ValueError
  else if String.eqb (name p) EmptyString then Raise ValueError
  else
    let old_suffix := suffix p in
    let new_name :=
      if String.eqb old_suffix EmptyString then (name p ++ sfx)%string
      else (take (String.length (name p) - String.length old_suffix) (name p)
            ++ sfx)%string in
    Ok (mkPath (anchor p) (removelast (parts p) ++ [new_name])).

End Pathlib.

(* ================================================================== *)
(** ** The inference engine ([ppgs/core.py]) *)
(* ================================================================== *)

Module Core.

Import Pathlib.

(** References to [nn.Module] objects. *)
Definition ref : Type := nat.

(** What an [nn.Module] holds: its named parameters and its device. *)
Record module : Type := mkModule { params : state_dict; placed : device }.

(** The content of a file. A checkpoint file is an envelope, a dictionary
    whose key ['model'] holds the parameter mapping. *)
Inductive file : Type :=
| FCheckpoint (envelope : dict state_dict)
| FAudio (audio : tensor)
| FTensor (t : tensor)
| FCorrupt.

Definition filesystem : Type := string -> option file.

(** The effectful calls, newest first in the log. *)
Inductive event : Type :=
| EvTorchLoad (checkpoint : string)
| EvLoadStateDict (model : ref) (sd : state_dict)
| EvPrint (msg : string)
| EvPrintShape (shape : list nat)
| EvTo (model : ref) (d : device)
| EvPreprocess (representation : string)
| EvForward (model : ref)
| EvLoadAudio (file : Path)
| EvSave (file : Path)
| EvResampleBuilt (orig_freq new_freq : Z).

(** The attributes [from_audio.model], [from_audio.checkpoint] and
    [from_audio.gpu].  They are assigned together, by three consecutive
    attribute assignments that cannot raise, so they are present together
    or absent together. *)
Record cache : Type :=
  mkCache { c_model : ref; c_checkpoint : string; c_gpu : option Z }.

Record state : Type := mkState {
  fs : filesystem;
  heap : ref -> module;
  attrs : option cache;
  log : list event
}.

(** What the module takes from outside: the constants of the [ppgs]
    package, the libraries, and the parts of the package that the
    functions below call. *)
Record Env : Type := mkEnv {
  (** [ppgs.MODEL], [ppgs.DEFAULT_CHECKPOINT], [ppgs.REPRESENTATION],
      [ppgs.SAMPLE_RATE] *)
  MODEL : ref;
  DEFAULT_CHECKPOINT : string;
  REPRESENTATION : string;
  SAMPLE_RATE : Z;
  (** [nn.Module.load_state_dict]: the module after the call (bound
      parameters are copied in place, also when the call raises) and the
      exception raised, if any. *)
  load_state_dict : module -> state_dict -> module * option exn;
  (** [ppgs.load.ddp_to_single_state_dict] *)
  ddp_to_single_state_dict : state_dict -> state_dict;
  (** whether [.to(device)] can place a module on the device *)
  available : device -> bool;
  (** [ppgs.preprocess.from_audio] *)
  preprocess : tensor -> string -> Z -> option Z -> result tensor;
  (** the forward pass of a module *)
  forward : module -> tensor -> result tensor;
  (** [ppgs.load.audio] *)
  load_audio : Path -> filesystem -> result tensor;
  (** [str(path)] and whether [torch.save] can write there *)
  path_str : Path -> string;
  writable : Path -> bool;
  (** building [torchaudio.transforms.Resample(orig, new)], moving it to
      the buffer's device and applying it to the buffer *)
  resample_kernel : Z -> Z -> tensor -> result tensor
}.

Definition heap_set (h : ref -> module) (r : ref) (m : module)
  : ref -> module :=
  fun r' => if Nat.eqb r' r then m else h r'.

Definition emit (ev : event) : M state unit :=
  modify (fun s => mkState (fs s) (heap s) (attrs s) (ev :: log s)).

Definition set_heap (r : ref) (m : module) : M state unit :=
  modify (fun s => mkState (fs s) (heap_set (heap s) r m) (attrs s) (log s)).

Definition set_attrs (c : cache) : M state unit :=
  modify (fun s => mkState (fs s) (heap s) (Some c) (log s)).

Definition set_file (p : string) (f : file) : M state unit :=
  modify (fun s =>
    mkState (fun q => if String.eqb q p then Some f else fs s q)
            (heap s) (attrs s) (log s)).

Definition option_Z_eqb (a b : option Z) : bool :=
  match a, b with
  | None, None => true
  | Some x, Some y => Z.eqb x y
  | _, _ => false
  end.

(** [not hasattr(from_audio, 'model') or from_audio.checkpoint != checkpoint
    or from_audio.gpu != gpu] *)
Definition stale (a : option cache) (checkpoint : string) (gpu : option Z)
  : bool :=
  match a with
  | None => true
  | Some c =>
      negb (String.eqb (c_checkpoint c) checkpoint)
      || negb (option_Z_eqb (c_gpu c) gpu)
  end.

Definition remap_message : string :=
  "Failed to load model, trying again with assumption that model was trained using ddp".

(** *** Reading the log *)

(** How many times a checkpoint was loaded: the runs of the constructor. *)
Definition constructions (l : list event) : nat :=
  length (filter (fun ev => match ev with EvTorchLoad _ => true | _ => false end) l).

(** How many times the remap notice was printed: the remap retries. *)
Definition remaps (l : list event) : nat :=
  length (filter (fun ev => match ev with EvPrint _ => true | _ => false end) l).

(** How many transforms [resample] built. *)
Definition transforms_built (l : list event) : nat :=
  length (filter (fun ev => match ev with EvResampleBuilt _ _ => true | _ => false end) l).

(** The audio files read and the output files written, oldest first. *)
Definition loaded (l : list event) : list Path :=
  flat_map (fun ev => match ev with EvLoadAudio p => [p] | _ => [] end) (rev l).

Definition saved (l : list event) : list Path :=
  flat_map (fun ev => match ev with EvSave p => [p] | _ => [] end) (rev l).

(** The state with further events logged, newest first. *)
Definition logged (evs : list event) (s : state) : state :=
  mkState (fs s) (heap s) (attrs s) (evs ++ log s).

(** *** Model identities *)

(** The key of the cache: checkpoint path and gpu. *)
Definition identity : Type := (string * option Z)%type.

Definition identity_eqb (a b : identity) : bool :=
  String.eqb (fst a) (fst b) && option_Z_eqb (snd a) (snd b).

Definition cached_identity (a : option cache) : option identity :=
  match a with
  | Some c => Some (c_checkpoint c, c_gpu c)
  | None => None
  end.

(** The calls of a sequence that find another identity in the cache than
    their own, when every call leaves its identity in the cache. *)
Fixpoint rebuilds (cached : option identity) (ids : list identity) : nat :=
  match ids with
  | [] => 0
  | id :: rest =>
      (match cached with
       | Some c => if identity_eqb c id then 0 else 1
       | None => 1
       end) + rebuilds (Some id) rest
  end.

(** The number of distinct identities of a sequence. *)
Fixpoint distinct (ids : list identity) : nat :=
  match ids with
  | [] => 0
  | id :: rest =>
      (if existsb (identity_eqb id) rest then 0 else 1) + distinct rest
  end.

(** One acquisition of a sequence: the model passed and the identity. *)
Record call : Type :=
  mkCall { call_model : option ref; call_id : identity }.

Section WithEnv.

Variable E : Env.

Local Open Scope monad_scope.

(** [torch.load(checkpoint, map_location='cpu')['model']] *)
Definition read_checkpoint (f : filesystem) (checkpoint : string)
  : result state_dict :=
  match f checkpoint with
  | None => Raise (Exn (OtherError "FileNotFoundError") [] None)
  | Some (FCheckpoint envelope) =>
      match dict_get "model" envelope with
      | Some sd => Ok sd
      | None => Raise (Exn (OtherError "KeyError") [] None)
      end
  | Some (FTensor _) => Raise (Exn (OtherError "IndexError") [] None)
  | Some (FAudio _) | Some FCorrupt =>
      Raise (Exn (OtherError "UnpicklingError") [] None)
  end.

Definition torch_load (checkpoint : string) : M state state_dict :=
  emit (EvTorchLoad checkpoint) ;;;
  s <- get ;;
  lift (read_checkpoint (fs s) checkpoint).

(** [model.load_state_dict(state_dict)] on the object [model] refers to. *)
Definition bind_state_dict (model : ref) (sd : state_dict) : M state unit :=
  emit (EvLoadStateDict model sd) ;;;
  s <- get ;;
  let '(m', raised) := load_state_dict E (heap s model) sd in
  set_heap model m' ;;;
  match raised with
  | None => ret tt
  | Some e => raise e
  end.

(** [model.to(device)]: moves the module in place and returns it. *)
Definition module_to (model : ref) (d : device) : M state ref :=
  emit (EvTo model d) ;;;
  if available E d then
    s <- get ;;
    set_heap model (mkModule (params (heap s model)) d) ;;;
    ret model
  else raise (Exn RuntimeError [] None).

(** [if model is None: model = ppgs.MODEL] *)
Definition resolve_model (model : option ref) : ref :=
  match model with
  | None => MODEL E
  | Some m => m
  end.

(** Lines 31-36 of [from_audio]: bind the parameters, and when that
    raises a [RuntimeError] print the notice, remap the keys and bind once
    more. *)
Definition apply_checkpoint (model : ref) (sd : state_dict) : M state unit :=
  try_except_RuntimeError
    (bind_state_dict model sd)
    (emit (EvPrint remap_message) ;;;
     let sd := ddp_to_single_state_dict E sd in
     bind_state_dict model sd).

(** Lines 22-40 of [from_audio]: resolve the default model, and rebuild the
    cached model when the cache is absent or its checkpoint or gpu differ. *)
Definition refresh_cache (model : option ref) (checkpoint : string)
           (gpu : option Z) : M state unit :=
  let model := resolve_model model in
  s <- get ;;
  if stale (attrs s) checkpoint gpu then
    sd <- torch_load checkpoint ;;
    apply_checkpoint model sd ;;;
    let d := device_of gpu in
    m <- module_to model d ;;
    set_attrs (mkCache m checkpoint gpu)
  else ret tt.

(** Reading [from_audio.model]. *)
Definition cached_model : M state ref :=
  s <- get ;;
  match attrs s with
  | Some c => ret (c_model c)
  | None => raise (Exn (OtherError "AttributeError") [] None)
  end.

(** Model acquisition: what [from_audio] does to obtain the model it runs. *)
Definition acquire (model : option ref) (checkpoint : string)
           (gpu : option Z) : M state ref :=
  refresh_cache model checkpoint gpu ;;;
  cached_model.

(** A sequence of acquisitions, one after the other. *)
Fixpoint acquire_all (calls : list call) : M state (list ref) :=
  match calls with
  | [] => ret []
  | c :: rest =>
      r <- acquire (call_model c) (fst (call_id c)) (snd (call_id c)) ;;
      rs <- acquire_all rest ;;
      ret (r :: rs)
  end.

(** [from_audio(audio, sample_rate, model, checkpoint, representation, gpu)] *)
Definition from_audio (audio : tensor) (sample_rate : Z)
           (model : option ref) (checkpoint : string)
           (representation : string) (gpu : option Z) : M state tensor :=
  refresh_cache model checkpoint gpu ;;;
  emit (EvPreprocess representation) ;;;
  features <- lift (preprocess E audio representation sample_rate gpu) ;;
  cached <- cached_model ;;
  emit (EvForward cached) ;;;
  s <- get ;;
  lift (forward E (heap s cached) features).

(** [from_file(file, checkpoint, gpu)] *)
Definition from_file (file : Path) (checkpoint : string) (gpu : option Z)
  : M state tensor :=
  emit (EvLoadAudio file) ;;;
  s <- get ;;
  audio <- lift (load_audio E file (fs s)) ;;
  emit (EvPrintShape (shape audio)) ;;;
  from_audio audio (SAMPLE_RATE E) None checkpoint (REPRESENTATION E) gpu.

(** [torch.save(result, output_file)] *)
Definition torch_save (t : tensor) (output_file : Path) : M state unit :=
  emit (EvSave output_file) ;;;
  if writable E output_file then
    set_file (path_str E output_file) (FTensor t)
  else raise (Exn (OtherError "OSError") [] None).

(** [from_file_to_file(audio_file, output_file, checkpoint, gpu)] *)
Definition from_file_to_file (audio_file output_file : Path)
           (checkpoint : string) (gpu : option Z) : M state unit :=
  result <- from_file audio_file checkpoint gpu ;;
  torch_save result output_file.

(** [from_files_to_files(audio_files, output_files, checkpoint, gpu)] *)
Definition from_files_to_files (audio_files : list Path)
           (output_files : option (list Path)) (checkpoint : string)
           (gpu : option Z) : M state unit :=
  output_files <-
    match output_files with
    | None => lift (map_result (fun file => with_suffix file ".pt")
                               audio_files)
    | Some fs => ret fs
    end ;;
  let ppg_fn := fun '(audio_file, output_file) =>
    from_file_to_file audio_file output_file checkpoint gpu in
  for_each ppg_fn (combine audio_files output_files).

(** [resample(audio, sample_rate, target_rate)] *)
Definition resample (audio : tensor) (sample_rate target_rate : Z)
  : M state tensor :=
  if Z.eqb sample_rate target_rate then ret audio
  else
    emit (EvResampleBuilt sample_rate target_rate) ;;;
    lift (resample_kernel E sample_rate target_rate audio).

End WithEnv.

End Core.


(* ================================================================== *)
(** ** Binding a checkpoint: [torch] and [ppgs.load] *)
(* ================================================================== *)

Module Torch.

Import Core.

Fixpoint shape_eqb (a b : list nat) : bool :=
  match a, b with
  | [], [] => true
  | x :: a', y :: b' => Nat.eqb x y && shape_eqb a' b'
  | _, _ => false
  end.

(** The parameters of the module that the mapping does not bind. *)
Definition missing_keys (m : module) (sd : state_dict) : list string :=
  filter (fun k => negb (dict_mem k sd)) (dict_keys (params m)).

(** The keys of the mapping that name no parameter of the module. *)
Definition unexpected_keys (m : module) (sd : state_dict) : list string :=
  filter (fun k => negb (dict_mem k (params m))) (dict_keys sd).

(** The parameters bound to a tensor of another shape. *)
Definition mismatched_keys (m : module) (sd : state_dict) : list string :=
  flat_map (fun kp : string * tensor =>
              match dict_get (fst kp) sd with
              | Some t =>
                  if shape_eqb (shape t) (shape (snd kp)) then []
                  else [fst kp]
              | None => []
              end)
           (params m).

(** A parameter after the call: the bound tensor is copied in when its
    shape fits, otherwise the parameter keeps its value. *)
Definition copy_param (sd : state_dict) (kp : string * tensor)
  : string * tensor :=
  match dict_get (fst kp) sd with
  | Some t =>
      if shape_eqb (shape t) (shape (snd kp)) then (fst kp, t) else kp
  | None => kp
  end.

Definition binding_errors (m : module) (sd : state_dict) : list load_error :=
  map MissingKey (missing_keys m sd)
  ++ map UnexpectedKey (unexpected_keys m sd)
  ++ map SizeMismatch (mismatched_keys m sd).

(** [torch.nn.Module.load_state_dict(state_dict)] with its default
    [strict=True]: every parameter whose key is bound to a tensor of the
    right shape is copied in place; then, when a key is missing or
    unexpected or a shape differs, a [RuntimeError] listing them is raised. *)
Definition strict_load_state_dict (m : module) (sd : state_dict)
  : module * option exn :=
  (mkModule (map (copy_param sd) (params m)) (placed m),
   match binding_errors m sd with
   | [] => None
   | errs => Some (Exn RuntimeError errs None)
   end).

(** The mapping names the module's parameters: no key missing, none
    unexpected. *)
Definition keys_match (m : module) (sd : state_dict) : bool :=
  match missing_keys m sd, unexpected_keys m sd with
  | [], [] => true
  | _, _ => false
  end.

(** A binding failure that reports a wrong key. *)
Definition is_key_error (err : load_error) : bool :=
  match err with
  | MissingKey _ | UnexpectedKey _ => true
  | SizeMismatch _ => false
  end.

Definition is_name_mismatch (e : exn) : bool :=
  existsb is_key_error (exn_detail e).

(** The prefix that [DistributedDataParallel] puts on every parameter
    name. *)
Definition ddp_prefix : string := "module.".

Definition add_prefix (sd : state_dict) : state_dict :=
  map (fun kv : string * tensor => ((ddp_prefix ++ fst kv)%string, snd kv)) sd.

(** [k.startswith(p)] *)
Fixpoint starts_with (p k : string) : bool :=
  match p, k with
  | EmptyString, _ => true
  | String a p', String b k' => Ascii.eqb a b && starts_with p' k'
  | String _ _, EmptyString => false
  end.

Definition strip_prefix (k : string) : string :=
  if starts_with ddp_prefix k
  then Pathlib.drop (String.length ddp_prefix) k
  else k.

(** Modelled from the spec: [ppgs.load.ddp_to_single_state_dict] is not
    among the sources.  The spec has the remap transform strip the known
    distributed-training prefix (a [module.]-style prefix) on every
    parameter name; the entries are rebuilt in order into a new
    dictionary. *)
Definition ddp_to_single_state_dict (sd : state_dict) : state_dict :=
  fold_left (fun acc (kv : string * tensor) =>
               dict_set (strip_prefix (fst kv)) (snd kv) acc)
            sd [].

End Torch.

(* ================================================================== *)
(** ** The EnCodec representation ([ppgs/preprocess/encodec.py]) *)
(* ================================================================== *)

Module Encodec.

(** A [torchaudio.transforms.Resample] object: the rates it was built for
    and the device it was moved to. *)
Record transform : Type :=
  mkTransform { orig_freq : Z; new_freq : Z; on_device : device }.

(** The codes of a batch, [model.encode(audio)[0][0]]: a tensor of three
    dimensions (batch, codebook, frame) and its entries in row-major order.
    The entries are integers; the casts to [float32] before the
    interpolation and to [int] after it leave them as they are. *)
Record codes : Type := mkCodes {
  batch : nat;
  codebooks : nat;
  frames : nat;
  entries : list Z
}.

Inductive event : Type :=
| EvResampleBuilt (orig new : Z) (d : device)
| EvResampleApplied (t : transform)
| EvCodecBuilt
| EvCodecTo (d : device)
| EvEncode.

(** The attributes [from_audios.sample_rate], [from_audios.resampler] and
    [from_audios.model] (the codec, known by the device it is on). *)
Record state : Type := mkState {
  sample_rate_attr : option Z;
  resampler_attr : option transform;
  model_attr : option device;
  log : list event
}.

Record Env : Type := mkEnv {
  (** [ppgs.HOPSIZE], [ppgs.SAMPLE_RATE] *)
  HOPSIZE : Z;
  SAMPLE_RATE : Z;
  (** whether [.to(device)] can reach the device *)
  available : device -> bool;
  (** whether [EncodecModel.encodec_model_24khz()] can build the codec *)
  codec_obtainable : bool;
  (** what a transform computes on a buffer *)
  kernel : transform -> tensor -> result tensor;
  (** [model.encode(audio)[0][0]] *)
  encode : tensor -> result codes
}.

Definition emit (ev : event) : M state unit :=
  modify (fun s => mkState (sample_rate_attr s) (resampler_attr s)
                           (model_attr s) (ev :: log s)).

Definition set_sample_rate (r : Z) : M state unit :=
  modify (fun s => mkState (Some r) (resampler_attr s) (model_attr s) (log s)).

Definition set_resampler (t : transform) : M state unit :=
  modify (fun s => mkState (sample_rate_attr s) (Some t) (model_attr s) (log s)).

Definition set_model (d : device) : M state unit :=
  modify (fun s => mkState (sample_rate_attr s) (resampler_attr s) (Some d)
                           (log s)).

Definition AttributeError : exn := Exn (OtherError "AttributeError") [] None.

(** How many transforms were built, and the transforms that were applied
    to a buffer, newest first. *)
Definition transforms_built (l : list event) : nat :=
  length (filter (fun ev => match ev with
                            | EvResampleBuilt _ _ _ => true
                            | _ => false
                            end) l).

Definition applied (l : list event) : list transform :=
  flat_map (fun ev => match ev with EvResampleApplied t => [t] | _ => [] end) l.

(** The frame count of a batch of codes, its last dimension, is [n]. *)
Definition frame_count_is (n : Z) (out : codes) : Prop :=
  Z.of_nat (frames out) = n.

(** The attributes are set in the order [sample_rate], [resampler]: a
    resampler is never there without its rate. *)
Definition consistent (s : state) : Prop :=
  resampler_attr s <> None -> sample_rate_attr s <> None.

(** Neither the codebook nor the frame dimension is zero. *)
Definition rows_nonempty (c : codes) : bool :=
  negb (Nat.eqb (codebooks c) 0 || Nat.eqb (frames c) 0).

(** [audio.shape[-1]] *)
Definition last_dim (t : tensor) : result nat :=
  match shape t with
  | [] => Raise (Exn (OtherError "IndexError") [] None)
  | d :: ds => Ok (last ds d)
  end.

(** [a // b] on integers *)
Definition floordiv (a b : Z) : result Z :=
  if Z.eqb b 0 then Raise (Exn (OtherError "ZeroDivisionError") [] None)
  else Ok (Z.div a b).

(** [not hasattr(from_audios, 'resampler') or
     sample_rate != from_audios.sample_rate] *)
Definition resampler_stale (s : state) (sample_rate : Z) : result bool :=
  match resampler_attr s with
  | None => Ok true
  | Some _ =>
      match sample_rate_attr s with
      | Some r => Ok (negb (Z.eqb sample_rate r))
      | None => Raise AttributeError
      end
  end.

(** Nearest-neighbour resizing of row [r] of a batch to [size] entries:
    entry [i] reads the row at [min(floor(i * len / size), len - 1)]. *)
Definition nearest_row (output : codes) (r size : nat) : list Z :=
  map (fun i =>
         nth (r * frames output
              + Nat.min (i * frames output / size) (frames output - 1))
             (entries output) 0%Z)
      (seq 0 size).

(** [torch.nn.functional.interpolate(output, size=size, mode='nearest')] on
    a batch of codes: every row is resized, so that the last dimension
    becomes [size] and the other two stay; a size that is not positive and
    a codebook or frame dimension of zero are refused. *)
Definition interpolate (output : codes) (size : Z) : result codes :=
  if (size <=? 0)%Z
     || (Nat.eqb (codebooks output) 0 || Nat.eqb (frames output) 0)
  then Raise (Exn RuntimeError [] None)
  else Ok (mkCodes (batch output) (codebooks output) (Z.to_nat size)
                   (flat_map (fun r => nearest_row output r (Z.to_nat size))
                             (seq 0 (batch output * codebooks output)))).

(** [t.unsqueeze(dim=0)] *)
Definition unsqueeze0 (t : tensor) : tensor :=
  mkTensor (1 :: shape t) (storage t).

Section WithEnv.

Variable E : Env.

Local Open Scope monad_scope.

(** [x.to(device)] *)
Definition to_device (d : device) : M state unit :=
  if available E d then ret tt else raise (Exn RuntimeError [] None).

(** The block [# Cache resampler] of [from_audios]: the rate is stored
    first, then the transform is built, moved to the device and stored. *)
Definition cache_resampler (sample_rate : Z) (d : device) : M state unit :=
  s <- get ;;
  stale <- lift (resampler_stale s sample_rate) ;;
  if stale then
    set_sample_rate sample_rate ;;;
    emit (EvResampleBuilt sample_rate 24000 d) ;;;
    to_device d ;;;
    set_resampler (mkTransform sample_rate 24000 d)
  else ret tt.

(** The block [# Cache model] of [from_audios]. *)
Definition cache_model (d : device) : M state unit :=
  s <- get ;;
  match model_attr s with
  | None =>
      emit EvCodecBuilt ;;;
      (if codec_obtainable E then set_model Cpu
       else raise (Exn RuntimeError [] None)) ;;;
      emit (EvCodecTo d) ;;;
      to_device d ;;;
      set_model d
  | Some _ => ret tt
  end.

(** The block under [torch.autocast]: resample to 24 kHz, encode,
    upsample. *)
Definition encode_and_upsample (audio : tensor) (expected_length : Z)
           (d : device) : M state codes :=
  to_device d ;;;
  s <- get ;;
  resampler <- match resampler_attr s with
               | Some t => ret t
               | None => raise AttributeError
               end ;;
  emit (EvResampleApplied resampler) ;;;
  audio <- lift (kernel E resampler audio) ;;
  emit EvEncode ;;;
  output <- lift (encode E audio) ;;
  lift (interpolate output expected_length).

(** [from_audios(audio, lengths, sample_rate, gpu)] *)
Definition from_audios (audio : tensor) (lengths : nat) (sample_rate : Z)
           (gpu : option Z) : M state codes :=
  let d := device_of gpu in
  n <- lift (last_dim audio) ;;
  expected_length <- lift (floordiv (Z.of_nat n) (HOPSIZE E)) ;;
  cache_resampler sample_rate d ;;;
  cache_model d ;;;
  encode_and_upsample audio expected_length d.

(** [from_audio(audio, sample_rate, gpu)] *)
Definition from_audio (audio : tensor) (sample_rate : Z) (gpu : option Z)
  : M state codes :=
  let audio :=
    if Nat.eqb (length (shape audio)) 2 then unsqueeze0 audio else audio in
  n <- lift (last_dim audio) ;;
  from_audios audio n sample_rate gpu.

End WithEnv.

End Encodec.

(* ================================================================== *)
(** ** A concrete environment *)
(* ================================================================== *)

Module Demo.

Import Core Pathlib.

Local Open Scope string_scope.

(** A module with one parameter [w] of shape [2]. *)
Definition net : module := mkModule [("w", mkTensor [2] [0; 0]%Z)] Cpu.

(** Checkpoints: one saved from a single process, one saved after
    distributed training, one whose tensor has another shape, one for
    another model. *)
Definition single_ckpt : file :=
  FCheckpoint [("model", [("w", mkTensor [2] [1; 2]%Z)])].

Definition ddp_ckpt : file :=
  FCheckpoint [("model", [("module.w", mkTensor [2] [3; 4]%Z)])].

(** The parameter mapping of [ddp_ckpt] before the prefix was put on. *)
Definition trained : state_dict := [("w", mkTensor [2] [3; 4]%Z)].

Definition wrong_shape : state_dict := [("w", mkTensor [3] [1; 2; 3]%Z)].

Definition unrelated : state_dict := [("encoder.bias", mkTensor [2] [5; 6]%Z)].

Definition clip : tensor := mkTensor [1; 4] [7; 8; 9; 10]%Z.

Definition disk : filesystem :=
  fun p =>
    if String.eqb p "single.pt" then Some single_ckpt
    else if String.eqb p "ddp.pt" then Some ddp_ckpt
    else if String.eqb p "shape.pt"
         then Some (FCheckpoint [("model", wrong_shape)])
    else if String.eqb p "unrelated.pt"
         then Some (FCheckpoint [("model", unrelated)])
    else if String.eqb p "a.wav" then Some (FAudio clip)
    else if String.eqb p "b.wav" then Some (FAudio clip)
    else None.

(** [str(path)] *)
Definition render (p : Path) : string :=
  (anchor p ++ String.concat "/" (parts p))%string.

Definition read_audio (p : Path) (f : filesystem) : result tensor :=
  match f (render p) with
  | Some (FAudio a) => Ok a
  | _ => Raise (Exn RuntimeError [] None)
  end.

(** One accelerator, index 0. *)
Definition has_device (d : device) : bool :=
  match d with
  | Cpu => true
  | Cuda g => Z.eqb g 0
  end.

Definition env : Env :=
  mkEnv 0 "single.pt" "w2v2fb" 16000%Z
        Torch.strict_load_state_dict Torch.ddp_to_single_state_dict
        has_device
        (fun audio _ _ _ => Ok audio)
        (fun _ features => Ok features)
        read_audio render (fun _ => true)
        (fun _ _ audio => Ok audio).

(** The process right after import: nothing cached, nothing logged. *)
Definition boot : state := mkState disk (fun _ => net) None [].

(** The process after a first acquisition of the default checkpoint. *)
Definition warm : state := snd (acquire env None "single.pt" None boot).

Definition a_wav : Path := mkPath "" ["a.wav"].
Definition b_wav : Path := mkPath "" ["b.wav"].
Definition a_pt : Path := mkPath "" ["a.pt"].

(** Three acquisitions: an identity, another one, the first one again. *)
Definition there_and_back : list call :=
  [mkCall None ("single.pt", None);
   mkCall None ("ddp.pt", None);
   mkCall None ("single.pt", None)].

Definition codec_env : Encodec.Env :=
  Encodec.mkEnv 320%Z 16000%Z has_device true
                (fun _ audio => Ok audio)
                (fun audio =>
                   Ok (Encodec.mkCodes 1 2 3 [1; 2; 3; 4; 5; 6]%Z)).

Definition codec_boot : Encodec.state := Encodec.mkState None None None [].

(** A tenth of a second of mono audio at 16 kHz. *)
Definition second : tensor := mkTensor [1; 1600] [].

End Demo.

(* ================================================================== *)
(** ** Reading the log of the EnCodec representation *)
(* ================================================================== *)

Module CodecLog.

(** How many times the codec was built or moved to a device. *)
Definition codec_events (l : list Encodec.event) : nat :=
  length (filter (fun ev => match ev with
                            | Encodec.EvCodecBuilt => true
                            | Encodec.EvCodecTo _ => true
                            | _ => false
                            end) l).

End CodecLog.

(* ================================================================== *)
(** ** The phoneme model on EnCodec features
       ([from_features] of [ppgs/preprocess/encodec.py]) *)
(* ================================================================== *)

Module Features.

Import Core.

(** A front end, known by the device it was built for. *)
Record frontend : Type := mkFrontend { built_for : device }.

(** A tensor together with the device it is on, [t.device]. *)
Record located : Type := mkLocated { where_on : device; value : tensor }.

Inductive event : Type :=
| EvModelBuilt
| EvTorchLoad (checkpoint : string)
| EvLoadStateDict (sd : state_dict)
| EvFrontendBuilt (d : device)
| EvTo (d : device)
| EvFrontend
| EvForward.

(** The attributes [from_features.model] and [from_features.frontend],
    the file system the checkpoints are read from, and the log. *)
Record state : Type := mkState {
  fs : filesystem;
  model_attr : option module;
  frontend_attr : option frontend;
  log : list event
}.

Record Env : Type := mkEnv {
  (** [ppgs.Model()] *)
  Model : module;
  (** [ppgs.CHECKPOINT_DIR / 'encodec.pt'] *)
  default_checkpoint : string;
  (** [nn.Module.load_state_dict] *)
  load_state_dict : module -> state_dict -> module * option exn;
  (** [ppgs.FRONTEND(device)] *)
  FRONTEND : device -> result frontend;
  (** whether [.to(device)] can place the model on the device *)
  available : device -> bool;
  (** what the front end and the model compute on a tensor and the device
      it is on; both may refuse a tensor that is on another device than
      theirs *)
  run_frontend : frontend -> located -> result located;
  run_model : module -> located -> tensor -> result tensor
}.

Definition emit (ev : event) : M state unit :=
  modify (fun s => mkState (fs s) (model_attr s) (frontend_attr s)
                           (ev :: log s)).

Definition set_model (m : module) : M state unit :=
  modify (fun s => mkState (fs s) (Some m) (frontend_attr s) (log s)).

Definition set_frontend (f : frontend) : M state unit :=
  modify (fun s => mkState (fs s) (model_attr s) (Some f) (log s)).

Definition AttributeError : exn := Exn (OtherError "AttributeError") [] None.

(** How many checkpoints were loaded. *)
Definition loads (l : list event) : nat :=
  length (filter (fun ev => match ev with EvTorchLoad _ => true | _ => false end) l).

Section WithEnv.

Variable E : Env.

Local Open Scope monad_scope.

(** Reading [from_features.model] and [from_features.frontend]. *)
Definition the_model : M state module :=
  s <- get ;;
  match model_attr s with
  | Some m => ret m
  | None => raise AttributeError
  end.

Definition the_frontend : M state frontend :=
  s <- get ;;
  match frontend_attr s with
  | Some f => ret f
  | None => raise AttributeError
  end.

(** [from_features.model.load_state_dict(torch.load(path)['model'])] *)
Definition load_into_model (path : string) : M state unit :=
  m <- the_model ;;
  emit (EvTorchLoad path) ;;;
  s <- get ;;
  sd <- lift (read_checkpoint (fs s) path) ;;
  emit (EvLoadStateDict sd) ;;;
  let '(m', raised) := load_state_dict E m sd in
  set_model m' ;;;
  match raised with
  | None => ret tt
  | Some e => raise e
  end.

(** [from_features(features, new_lengths, checkpoint, gpu)]; [device] is
    [features.device]. *)
Definition from_features (features : tensor) (device : device)
           (new_lengths : tensor) (checkpoint : option string)
           (gpu : Z) : M state tensor :=
  s <- get ;;
  (match model_attr s with
   | None =>
       emit EvModelBuilt ;;;
       set_model (Model E) ;;;
       (match checkpoint with
        | Some path => load_into_model path
        | None => load_into_model (default_checkpoint E)
        end) ;;;
       emit (EvFrontendBuilt device) ;;;
       f <- lift (FRONTEND E device) ;;
       set_frontend f ;;;
       emit (EvTo device) ;;;
       m <- the_model ;;
       if available E device then set_model (mkModule (params m) device)
       else raise (Exn RuntimeError [] None)
   | Some _ => ret tt
   end) ;;;
  m <- the_model ;;
  f <- the_frontend ;;
  emit EvFrontend ;;;
  x <- lift (run_frontend E f (mkLocated device features)) ;;
  emit EvForward ;;;
  lift (run_model E m x new_lengths).

End WithEnv.

End Features.

(* ================================================================== *)
(** ** Partitioning the datasets ([ppgs/partition/core.py]) *)
(* ================================================================== *)

Module Partition.

Import Pathlib.

Local Open Scope string_scope.

(** [c.lower()] on the ASCII letters; the other characters stay. *)
Definition lower_char (c : ascii) : ascii :=
  let n := nat_of_ascii c in
  if (65 <=? n)%nat && (n <=? 90)%nat then ascii_of_nat (n + 32) else c.

Fixpoint lower (s : string) : string :=
  match s with
  | EmptyString => EmptyString
  | String c s' => String (lower_char c) (lower s')
  end.

Fixpoint parts_eqb (a b : list string) : bool :=
  match a, b with
  | [], [] => true
  | x :: a', y :: b' => String.eqb x y && parts_eqb a' b'
  | _, _ => false
  end.

(** Equality of paths, and the membership tests [file in files] and
    [name in names]. *)
Definition path_eqb (p q : Path) : bool :=
  String.eqb (anchor p) (anchor q) && parts_eqb (parts p) (parts q).

Definition path_in (p : Path) (l : list Path) : bool := existsb (path_eqb p) l.

Definition str_in (s : string) (l : list string) : bool :=
  existsb (String.eqb s) l.

(** [file.parents[0].name], the speaker directory of a file *)
Definition speaker_of (file : Path) : string := name (parent file).

(** [f'{file.parents[0].name}/{file.stem}'] *)
Definition entry (file : Path) : string :=
  speaker_of file ++ "/" ++ stem file.

(** The dictionary that is dumped to the partition file. *)
Record partition : Type :=
  mkPartition { train : list string; valid : list string; test : list string }.

Inductive event : Type :=
| EvPrint (file : Path)
| EvSeed (seed : Z)
| EvMkdir (dir : Path)
| EvDump (file : Path) (p : partition).

(** The paths that exist, and the log. *)
Record state : Type := mkState {
  present : Path -> bool;
  log : list event
}.

Record Env : Type := mkEnv {
  (** [ppgs.PARTITION_DIR], [ppgs.CACHE_DIR], [ppgs.RANDOM_SEED] *)
  PARTITION_DIR : Path;
  CACHE_DIR : Path;
  RANDOM_SEED : Z;
  (** [ppgs.ARCTIC_UNSEEN], [ppgs.ARCTIC_VALIDATION_IDS],
      [ppgs.TIMIT_UNSEEN], [ppgs.TIMIT_VALID_SPEAKERS] *)
  ARCTIC_UNSEEN : list string;
  ARCTIC_VALIDATION_IDS : list string;
  TIMIT_UNSEEN : list string;
  TIMIT_VALID_SPEAKERS : list string;
  (** [path / name] *)
  joinpath : Path -> string -> Path;
  (** [dir.rglob(pattern)] and [dir.glob(pattern)] *)
  rglob : Path -> string -> list Path;
  glob : Path -> string -> list Path;
  (** whether a directory can be made, a file opened for writing *)
  creatable : Path -> bool
}.

Definition emit (ev : event) : M state unit :=
  modify (fun s => mkState (present s) (ev :: log s)).

Definition add_path (p : Path) : M state unit :=
  modify (fun s =>
    mkState (fun q => if path_eqb q p then true else present s q) (log s)).

(** The partitions dumped, newest first. *)
Definition dumped (l : list event) : list (Path * partition) :=
  flat_map (fun ev => match ev with EvDump f p => [(f, p)] | _ => [] end) l.

(** The three comprehensions of [partition_dataset]. *)
Definition split (all_textgrid : list Path) (unseen_speakers : list string)
           (validation_files : list Path) : partition :=
  mkPartition
    (map entry
       (filter (fun file =>
                  negb (str_in (speaker_of file) unseen_speakers)
                  && negb (path_in file validation_files))
               all_textgrid))
    (map entry
       (filter (fun file => path_in file validation_files) all_textgrid))
    (map entry
       (filter (fun file =>
                  str_in (speaker_of file) unseen_speakers
                  && negb (path_in file validation_files))
               all_textgrid)).

Section WithEnv.

Variable E : Env.

Local Open Scope monad_scope.

(** [dir.mkdir(parents=True, exist_ok=True)] *)
Definition mkdir (dir : Path) : M state unit :=
  emit (EvMkdir dir) ;;;
  if creatable E dir then add_path dir
  else raise (Exn (OtherError "OSError") [] None).

(** [with open(file, 'w') as f: json.dump(partition, f, ...)] *)
Definition dump (file : Path) (p : partition) : M state unit :=
  if creatable E file then emit (EvDump file p) ;;; add_path file
  else raise (Exn (OtherError "OSError") [] None).

(** [partition_dataset(data_dir, unseen_speakers, validation_files,
    partition_file)] *)
Definition partition_dataset (data_dir : Path) (unseen_speakers : list string)
           (validation_files : list Path) (partition_file : Path)
  : M state unit :=
  let all_textgrid := rglob E data_dir "*.textgrid" in
  let partition := split all_textgrid unseen_speakers validation_files in
  mkdir (parent partition_file) ;;;
  dump partition_file partition.

(** The validation files of [arctic()]: for every validation id, the files
    of that name whose speaker code [file.parent.name[7:10]] is not unseen. *)
Definition arctic_validation_files (data_dir : Path) : list Path :=
  flat_map (fun id =>
              filter (fun file =>
                        negb (str_in (take 3 (drop 7 (name (parent file))))
                                     (ARCTIC_UNSEEN E)))
                     (rglob E data_dir (id ++ ".textgrid")))
           (ARCTIC_VALIDATION_IDS E).

(** [f'cmu_us_{speaker}_arctic'] for every unseen speaker *)
Definition arctic_unseen_speakers : list string :=
  map (fun speaker => "cmu_us_" ++ speaker ++ "_arctic") (ARCTIC_UNSEEN E).

(** [arctic()] *)
Definition arctic : M state unit :=
  let data_dir := joinpath E (CACHE_DIR E) "arctic" in
  let partition_file := joinpath E (PARTITION_DIR E) "arctic.json" in
  partition_dataset data_dir arctic_unseen_speakers
                    (arctic_validation_files data_dir) partition_file.

(** [timit()] *)
Definition timit : M state unit :=
  let data_dir := joinpath E (CACHE_DIR E) "timit" in
  let partition_file := joinpath E (PARTITION_DIR E) "timit.json" in
  let validation_files :=
    flat_map (fun speaker => glob E (joinpath E data_dir speaker) "*.textgrid")
             (TIMIT_VALID_SPEAKERS E) in
  partition_dataset data_dir (TIMIT_UNSEEN E) validation_files partition_file.

(** The body of the loop of [datasets]. *)
Definition partition_one (overwrite : bool) (dataset : string) : M state unit :=
  let file := joinpath E (PARTITION_DIR E) (dataset ++ ".json") in
  s <- get ;;
  if present s file && negb overwrite then emit (EvPrint file)
  else
    emit (EvSeed (RANDOM_SEED E)) ;;;
    if String.eqb (lower dataset) "arctic" then arctic
    else if String.eqb (lower dataset) "timit" then timit
    else raise (Exn (OtherError "NotImplementedError") [] None).

(** [datasets(datasets, overwrite)] *)
Definition datasets (names : list string) (overwrite : bool) : M state unit :=
  for_each (partition_one overwrite) names.

End WithEnv.

End Partition.

(* ================================================================== *)
(** ** Obtaining TIMIT ([download_timit] of
       [ppgs/data/download/core.py]) *)
(* ================================================================== *)

Module Download.

Import Pathlib.

Local Open Scope string_scope.

Inductive event : Type :=
| EvMkdir (dir : Path)
| EvUsing (source : Path)
| EvUnzipping (source : Path)
| EvExtract (source dest : Path).

Record state : Type := mkState {
  present : Path -> bool;
  log : list event
}.

Record Env : Type := mkEnv {
  (** [ppgs.SOURCES_DIR] *)
  SOURCES_DIR : Path;
  (** [path / name] *)
  joinpath : Path -> string -> Path;
  (** [dir.mkdir(parents=True, exist_ok=True)] and
      [tarfile.open(source).extractall(dest)], on the paths that exist *)
  mkdir_p : Path -> (Path -> bool) -> result (Path -> bool);
  extractall : Path -> Path -> (Path -> bool) -> result (Path -> bool)
}.

Definition emit (ev : event) : M state unit :=
  modify (fun s => mkState (present s) (ev :: log s)).

(** An operation of the file system, run on the paths that exist. *)
Definition on_files (op : (Path -> bool) -> result (Path -> bool))
  : M state unit :=
  fun s =>
    match op (present s) with
    | Ok present' => (Ok tt, mkState present' (log s))
    | Raise e => (Raise e, s)
    end.

(** The candidates, in order of preference. *)
Definition possible_files : list string :=
  ["timit"; "timit.tar"; "timit_LDC93S1.tgz"; "timit_LDC9321.tar.gz";
   "timit.tgz"; "timit.tar.gz"].

(** [flags.index(True)], with [None] for the [ValueError]. *)
Fixpoint index_true (flags : list bool) : option nat :=
  match flags with
  | [] => None
  | true :: _ => Some 0
  | false :: rest =>
      match index_true rest with
      | Some i => Some (S i)
      | None => None
      end
  end.

Definition FileNotFoundError : exn :=
  Exn (OtherError "FileNotFoundError") [] None.

(** How many archives were extracted. *)
Definition extractions (l : list event) : nat :=
  length (filter (fun ev => match ev with EvExtract _ _ => true | _ => false end) l).

Section WithEnv.

Variable E : Env.

Local Open Scope monad_scope.

Definition possible_paths : list Path :=
  map (joinpath E (SOURCES_DIR E)) possible_files.

(** The first branch of [download_timit]: the chosen source and, when no
    source was given, its index among the candidates.  With a source given
    the local variable [chosen_source_idx] is never assigned. *)
Definition choose_source (timit_source : option Path)
  : M state (Path * option nat) :=
  match timit_source with
  | None =>
      s <- get ;;
      let source_exists := map (present s) possible_paths in
      match index_true source_exists with
      | Some idx => ret (nth idx possible_paths (SOURCES_DIR E), Some idx)
      | None =>
          raise (raised_while_handling
                   (Exn (OtherError "ValueError") [] None) FileNotFoundError)
      end
  | Some source =>
      s <- get ;;
      if present s source then ret (source, None)
      else raise FileNotFoundError
  end.

(** The body of [download_timit(timit_source)]; [recurse] is the call
    [download_timit(timit_source)] on its last line. *)
Definition download_timit_body (recurse : M state unit)
           (timit_source : option Path) : M state unit :=
  emit (EvMkdir (SOURCES_DIR E)) ;;;
  on_files (mkdir_p E (SOURCES_DIR E)) ;;;
  chosen <- choose_source timit_source ;;
  let '(chosen_source, chosen_source_idx) := chosen in
  emit (EvUsing chosen_source) ;;;
  match chosen_source_idx with
  | None => raise (Exn (OtherError "UnboundLocalError") [] None)
  | Some idx =>
      if (0 <? idx)%nat then
        emit (EvUnzipping chosen_source) ;;;
        emit (EvExtract chosen_source (SOURCES_DIR E)) ;;;
        on_files (extractall E chosen_source (SOURCES_DIR E)) ;;;
        s <- get ;;
        (if present s (joinpath E (SOURCES_DIR E) "timit") then ret tt
         else raise FileNotFoundError) ;;;
        recurse
      else ret tt
  end.

(** [download_timit(timit_source)].  [depth] is the number of frames the
    interpreter still allows; a call beyond it raises [RecursionError]. *)
Fixpoint download_timit (depth : nat) (timit_source : option Path)
  : M state unit :=
  match depth with
  | O => raise (Exn RuntimeError [] None)
  | S depth' =>
      download_timit_body (download_timit depth' timit_source) timit_source
  end.

End WithEnv.

End Download.

(* ================================================================== *)
(** ** Concrete states and environments *)
(* ================================================================== *)

Module Samples.

Import Pathlib.

Local Open Scope string_scope.

(** The EnCodec attributes after a call at 44.1 kHz on the CPU. *)
Definition cd_transform : Encodec.transform :=
  Encodec.mkTransform 44100 24000 Cpu.

Definition after_cd : Encodec.state :=
  Encodec.mkState (Some 44100%Z) (Some cd_transform) (Some Cpu) [].

Definition same_device (a b : device) : bool :=
  match a, b with
  | Cpu, Cpu => true
  | Cuda i, Cuda j => Z.eqb i j
  | _, _ => false
  end.

(** An environment for [from_features] in which the front end and the
    model refuse a tensor that is on another device than theirs; a disk
    that holds the default checkpoint and one that holds none. *)
Definition features_env : Features.Env :=
  Features.mkEnv Demo.net "encodec.pt" Torch.strict_load_state_dict
                 (fun d => Ok (Features.mkFrontend d))
                 Demo.has_device
                 (fun f x =>
                    if same_device (Features.built_for f) (Features.where_on x)
                    then Ok x else Raise (Exn RuntimeError [] None))
                 (fun m x _ =>
                    if same_device (Core.placed m) (Features.where_on x)
                    then Ok (Features.value x)
                    else Raise (Exn RuntimeError [] None)).

Definition features_disk : Core.filesystem :=
  fun p => if String.eqb p "encodec.pt" then Some Demo.single_ckpt else None.

Definition fresh : Features.state :=
  Features.mkState features_disk None None [].


(** A partition environment: two arctic speakers, [bdl] unseen; the file
    system lists three text grids, one of them a validation sentence. *)
Definition child (dir : Path) (name : string) : Path :=
  mkPath (anchor dir) (parts dir ++ [name]).

Definition grid (speaker sentence : string) : Path :=
  mkPath "/" ["cache"; "arctic"; speaker; sentence ++ ".textgrid"].

Definition grids : list Path :=
  [grid "cmu_us_awb_arctic" "arctic_a0001";
   grid "cmu_us_awb_arctic" "arctic_a0002";
   grid "cmu_us_bdl_arctic" "arctic_a0001"].

Definition ends_with_grid (pattern : string) (file : Path) : bool :=
  String.eqb pattern "*.textgrid" || String.eqb pattern (name file).

Definition partition_env : Partition.Env :=
  Partition.mkEnv (mkPath "/" ["partitions"]) (mkPath "/" ["cache"]) 0%Z
                  ["bdl"] ["arctic_a0001"] ["DR1"] ["DR2"]
                  child
                  (fun _ pattern => filter (ends_with_grid pattern) grids)
                  (fun _ _ => [])
                  (fun _ => true).

(** The partition of arctic exists already; nothing is logged. *)
Definition partitioned : Partition.state :=
  Partition.mkState
    (fun p => Partition.path_eqb p (mkPath "/" ["partitions"; "arctic.json"]))
    [].

Definition unpartitioned : Partition.state :=
  Partition.mkState (fun _ => false) [].

(** A file system for [download_timit]: making a directory and unpacking
    an archive add paths and remove none; unpacking yields [timit]. *)
Definition download_env : Download.Env :=
  Download.mkEnv (mkPath "/" ["sources"]) child
                 (fun dir files =>
                    Ok (fun q => Partition.path_eqb q dir || files q))
                 (fun _ dest files =>
                    Ok (fun q => Partition.path_eqb q (child dest "timit")
                                 || files q)).

(** Only the archive [timit.tgz] is there. *)
Definition only_archive : Download.state :=
  Download.mkState
    (fun q => Partition.path_eqb q (mkPath "/" ["sources"; "timit.tgz"]))
    [].

End Samples.

(* ================================================================== *)
(** ** Runs of calls *)
(* ================================================================== *)

(** A process makes one call after the other, whether the call before
    returned or raised. *)
Module Sessions.

(** What a call of [ppgs.from_audio] is given besides the checkpoint and
    the gpu. *)
Record request : Type := mkRequest {
  r_audio : tensor;
  r_sample_rate : Z;
  r_model : option Core.ref;
  r_representation : string
}.

(** The process after a run of calls of [ppgs.from_audio] with one
    checkpoint and one gpu. *)
Fixpoint after_calls (E : Core.Env) (checkpoint : string) (gpu : option Z)
         (requests : list request) (s : Core.state) : Core.state :=
  match requests with
  | [] => s
  | q :: rest =>
      after_calls E checkpoint gpu rest
        (snd (Core.from_audio E (r_audio q) (r_sample_rate q) (r_model q)
                              checkpoint (r_representation q) gpu s))
  end.

(** What a call of [encodec.from_audios] is given besides the rate. *)
Record codec_request : Type := mkCodecRequest {
  c_audio : tensor;
  c_lengths : nat;
  c_gpu : option Z
}.

(** The process after a run of calls of [encodec.from_audios] with one
    source rate. *)
Fixpoint after_audios (E : Encodec.Env) (sample_rate : Z)
         (requests : list codec_request) (s : Encodec.state)
  : Encodec.state :=
  match requests with
  | [] => s
  | q :: rest =>
      after_audios E sample_rate rest
        (snd (Encodec.from_audios E (c_audio q) (c_lengths q) sample_rate
                                  (c_gpu q) s))
  end.

(** What a call of [encodec.from_features] is given. *)
Record features_request : Type := mkFeaturesRequest {
  f_features : tensor;
  f_device : device;
  f_new_lengths : tensor;
  f_checkpoint : option string;
  f_gpu : Z
}.

(** The process after a run of calls of [encodec.from_features]. *)
Fixpoint after_features (E : Features.Env)
         (requests : list features_request) (s : Features.state)
  : Features.state :=
  match requests with
  | [] => s
  | q :: rest =>
      after_features E rest
        (snd (Features.from_features E (f_features q) (f_device q)
                                     (f_new_lengths q) (f_checkpoint q)
                                     (f_gpu q) s))
  end.

End Sessions.

(* ================================================================== *)
(** * Properties *)
(* ================================================================== *)

Import Core.

(** ** The monad *)

Lemma bind_ok {S A B} (c : M S A) (k : A -> M S B) s a s' :
  c s = (Ok a, s') -> bind c k s = k a s'.
Proof. intros H. unfold bind. rewrite H. reflexivity. Qed.

Lemma bind_raise {S A B} (c : M S A) (k : A -> M S B) s e s' :
  c s = (Raise e, s') -> bind c k s = (Raise e, s').
Proof. intros H. unfold bind. rewrite H. reflexivity. Qed.

Lemma bind_inv_ok {S A B} (c : M S A) (k : A -> M S B) s b s' :
  bind c k s = (Ok b, s') ->
  exists a s1, c s = (Ok a, s1) /\ k a s1 = (Ok b, s').
Proof.
  unfold bind. destruct (c s) as [[a|e] s1]; [eauto | discriminate].
Qed.

Lemma lift_inv_ok {S A} (r : result A) (s : S) a s' :
  lift r s = (Ok a, s') -> r = Ok a /\ s' = s.
Proof. unfold lift. now intros [= -> ->]. Qed.

Lemma bind_inv {S A B} (c : M S A) (k : A -> M S B) s r s' :
  bind c k s = (r, s') ->
  (exists a s1, c s = (Ok a, s1) /\ k a s1 = (r, s')) \/
  (exists e, c s = (Raise e, s') /\ r = Raise e).
Proof.
  unfold bind. destruct (c s) as [[a|e] s1]; [eauto|].
  intros [= <- <-]. eauto.
Qed.

(** ** The model cache *)

Lemma option_Z_eqb_refl g : option_Z_eqb g g = true.
Proof. destruct g as [z|]; simpl; [apply Z.eqb_refl | reflexivity]. Qed.

Lemma option_Z_eqb_eq a b : option_Z_eqb a b = true <-> a = b.
Proof.
  destruct a as [x|], b as [y|]; simpl; split; intros H;
    try discriminate; try reflexivity.
  - apply Z.eqb_eq in H. now subst.
  - injection H as ->. apply Z.eqb_refl.
Qed.

Lemma stale_false_iff a checkpoint gpu :
  stale a checkpoint gpu = false <->
  exists c, a = Some c /\ c_checkpoint c = checkpoint /\ c_gpu c = gpu.
Proof.
  unfold stale. destruct a as [c|].
  - rewrite orb_false_iff, !negb_false_iff, String.eqb_eq, option_Z_eqb_eq.
    split.
    + intros [H1 H2]. exists c. auto.
    + intros (c' & Hc & H1 & H2). injection Hc as <-. auto.
  - split; [discriminate | intros (c & Hc & _); discriminate].
Qed.

Lemma stale_same c : stale (Some c) (c_checkpoint c) (c_gpu c) = false.
Proof. apply stale_false_iff. exists c. auto. Qed.

Section CacheFacts.

Variable E : Env.

(** A call that finds its identity in the cache leaves the state alone. *)
Lemma refresh_cache_hit model checkpoint gpu s :
  stale (attrs s) checkpoint gpu = false ->
  refresh_cache E model checkpoint gpu s = (Ok tt, s).
Proof.
  intros H. unfold refresh_cache, bind, get. rewrite H. reflexivity.
Qed.

(** What a call that finds another identity, or none, does: it loads the
    checkpoint first; it leaves the attributes alone when it raises and
    sets them to the model it was given when it returns. *)
Lemma refresh_cache_miss model checkpoint gpu s r s' :
  stale (attrs s) checkpoint gpu = true ->
  refresh_cache E model checkpoint gpu s = (r, s') ->
  fs s' = fs s /\
  exists evs,
    log s' = evs ++ EvTorchLoad checkpoint :: log s /\
    constructions evs = 0 /\ loaded evs = [] /\ saved evs = [] /\
    ((exists e, r = Raise e /\ attrs s' = attrs s) \/
     (r = Ok tt /\
      attrs s' = Some (mkCache (resolve_model E model) checkpoint gpu) /\
      available E (device_of gpu) = true /\
      placed (heap s' (resolve_model E model)) = device_of gpu /\
      exists sd evs',
        read_checkpoint (fs s) checkpoint = Ok sd /\
        evs = EvTo (resolve_model E model) (device_of gpu) :: evs' /\
        In (EvLoadStateDict (resolve_model E model) sd) evs')).
Proof.
  intros Hst. unfold refresh_cache, bind at 1, get. rewrite Hst.
  unfold torch_load, bind, emit, modify, get, lift. simpl.
  destruct (read_checkpoint (fs s) checkpoint) as [sd|e] eqn:Hrd.
  2:{ intros [= <- <-]. simpl. split; [reflexivity|].
      exists []. repeat split; auto. left. eauto. }
  unfold apply_checkpoint, try_except_RuntimeError, bind_state_dict, bind,
    emit, modify, get, set_heap, ret, raise. simpl.
  destruct (load_state_dict E (heap s (resolve_model E model)) sd)
    as [m1 [e1|]] eqn:H1; simpl.
  - destruct (is_RuntimeError e1) eqn:Hr.
    + unfold heap_set at 1. rewrite Nat.eqb_refl.
      destruct (load_state_dict E m1 (ddp_to_single_state_dict E sd))
        as [m2 [e2|]] eqn:H2; simpl.
      * intros [= <- <-]. simpl. split; [reflexivity|].
        eexists [_; _; _]. simpl. repeat split; auto. left. eauto.
      * unfold module_to, bind, emit, modify, get, set_heap, set_attrs, ret,
          raise. simpl.
        destruct (available E (device_of gpu)) eqn:Hav; simpl.
        -- intros [= <- <-]. simpl. split; [reflexivity|].
           eexists [_; _; _; _]. simpl. repeat split; auto.
           right. unfold heap_set. rewrite Nat.eqb_refl.
           repeat split; auto. do 2 eexists.
           split; [reflexivity|]. split; [reflexivity|]. simpl. auto 6.
        -- intros [= <- <-]. simpl. split; [reflexivity|].
           eexists [_; _; _; _]. simpl. repeat split; auto. left. eauto.
    + intros [= <- <-]. simpl. split; [reflexivity|].
      eexists [_]. simpl. repeat split; auto. left. eauto.
  - unfold module_to, bind, emit, modify, get, set_heap, set_attrs, ret,
      raise. simpl.
    destruct (available E (device_of gpu)) eqn:Hav; simpl.
    + intros [= <- <-]. simpl. split; [reflexivity|].
      eexists [_; _]. simpl. repeat split; auto.
      right. unfold heap_set. rewrite Nat.eqb_refl.
      repeat split; auto. do 2 eexists.
           split; [reflexivity|]. split; [reflexivity|]. simpl. auto 6.
    + intros [= <- <-]. simpl. split; [reflexivity|].
      eexists [_; _]. simpl. repeat split; auto. left. eauto.
Qed.

End CacheFacts.

Lemma constructions_app l1 l2 :
  constructions (l1 ++ l2) = constructions l1 + constructions l2.
Proof. unfold constructions. now rewrite filter_app, length_app. Qed.

Lemma stale_rebuild a checkpoint gpu :
  rebuilds (cached_identity a) [(checkpoint, gpu)] =
  if stale a checkpoint gpu then 1 else 0.
Proof.
  destruct a as [c|]; simpl; [|reflexivity].
  unfold identity_eqb. simpl.
  destruct (String.eqb (c_checkpoint c) checkpoint); simpl; [|reflexivity].
  destruct (option_Z_eqb (c_gpu c) gpu); reflexivity.
Qed.

Section AcquireFacts.

Variable E : Env.

Lemma cached_model_ok s c : attrs s = Some c -> cached_model s = (Ok (c_model c), s).
Proof. intros H. unfold cached_model, bind, get, ret. now rewrite H. Qed.

(** A successful acquisition runs the constructor when, and only when, it
    finds another identity in the cache than its own, and leaves its own
    identity there. *)
Lemma acquire_ok model checkpoint gpu s r s' :
  acquire E model checkpoint gpu s = (Ok r, s') ->
  constructions (log s') =
    rebuilds (cached_identity (attrs s)) [(checkpoint, gpu)]
    + constructions (log s) /\
  cached_identity (attrs s') = Some (checkpoint, gpu).
Proof.
  unfold acquire. unfold bind at 1.
  destruct (refresh_cache E model checkpoint gpu s) as [[[]|e] s1] eqn:Hr;
    [|discriminate].
  rewrite stale_rebuild.
  destruct (stale (attrs s) checkpoint gpu) eqn:Hst.
  - destruct (refresh_cache_miss E model checkpoint gpu s Hst Hr)
      as (_ & evs & Hlog & Hc & _ & _ & [(e & He & _)|(_ & Ha & _)]);
      [discriminate|].
    rewrite (cached_model_ok s1 Ha). intros [= <- <-].
    rewrite Hlog, Ha, constructions_app, Hc. split; reflexivity.
  - rewrite (refresh_cache_hit E model checkpoint gpu s Hst) in Hr.
    injection Hr as <-.
    apply stale_false_iff in Hst as (c & Hc & H1 & H2).
    rewrite (cached_model_ok s Hc). intros [= <- <-].
    rewrite Hc. simpl. now subst.
Qed.

Lemma rebuilds_cons cached id rest :
  rebuilds cached (id :: rest) = rebuilds cached [id] + rebuilds (Some id) rest.
Proof. simpl. lia. Qed.

End AcquireFacts.

(** C1 (as the code has it).  Over any sequence of acquisitions that all
    return, the constructor (one checkpoint load each) runs once for every
    call that finds another identity in the single cache entry than its own,
    or none: once per change of identity along the sequence, so an identity
    that comes back after another one is built again.  A call whose identity
    is the cached one returns the cached instance and leaves the whole state
    (file system, modules, attributes, log) as it was. *)
Theorem constructor_runs_once_per_identity_change
    (E : Env) (calls : list call) (s s' : state) (rs : list ref) :
  acquire_all E calls s = (Ok rs, s') ->
  constructions (log s') =
    rebuilds (cached_identity (attrs s)) (map call_id calls)
    + constructions (log s)
  /\ forall c model,
       attrs s = Some c ->
       acquire E model (c_checkpoint c) (c_gpu c) s = (Ok (c_model c), s).
Proof.
  intros H. split.
  - revert s s' rs H. induction calls as [|c rest IH]; intros s s' rs H.
    + injection H as _ <-. reflexivity.
    + cbn [acquire_all] in H. unfold bind at 1 in H.
      destruct (acquire E (call_model c) (fst (call_id c)) (snd (call_id c)) s)
        as [[r|e] s1] eqn:Ha; [|discriminate].
      unfold bind at 1 in H.
      destruct (acquire_all E rest s1) as [[rs1|e] s2] eqn:Hrest;
        [|discriminate].
      injection H as _ <-.
      apply acquire_ok in Ha as [Hc Hid].
      apply IH in Hrest. rewrite Hid in Hrest.
      cbn [map]. rewrite rebuilds_cons.
      rewrite <- surjective_pairing in Hc, Hrest.
      rewrite Hrest, Hc, Nat.add_assoc.
      f_equal. apply Nat.add_comm.
  - intros c model Hc. unfold acquire, bind.
    rewrite refresh_cache_hit by (rewrite Hc; apply stale_same).
    now apply cached_model_ok.
Qed.

Lemma constructor_runs_once_per_identity_change_witness :
  constructions (log (snd (acquire_all Demo.env Demo.there_and_back Demo.boot)))
  = 3.
Proof.
  destruct (acquire_all Demo.env Demo.there_and_back Demo.boot)
    as [[rs|e] s'] eqn:H; [|vm_compute in H; discriminate].
  apply (constructor_runs_once_per_identity_change _ _ _ H).
Defined.

(** C1, as stated, fails: the three acquisitions of [Demo.there_and_back]
    meet two distinct identities, all return, and the constructor runs
    three times. *)
Lemma constructor_count_is_not_distinct_count :
  let run := acquire_all Demo.env Demo.there_and_back Demo.boot in
  is_ok (fst run) = true /\
  distinct (map call_id Demo.there_and_back) = 2 /\
  constructions (log (snd run)) = 3 /\
  constructions (log (snd run)) <> distinct (map call_id Demo.there_and_back).
Proof. vm_compute. repeat split; try reflexivity. discriminate. Qed.

(** C10.  When the attributes of [from_audio] hold a model for the given
    checkpoint and gpu, the model argument plays no part: the cache refresh
    returns at once with the state as it was, and the forward pass runs on
    the cached instance, whatever model was passed.  The passed model (or
    [ppgs.MODEL] in its place) is touched only when the cache is absent or
    holds another identity; a refresh that then returns has bound the
    checkpoint to that model, placed it on the device and made it the cached
    instance. *)
Theorem cached_model_overrides_argument
    (E : Env) (audio : tensor) (sample_rate : Z) (model : option ref)
    (checkpoint representation : string) (gpu : option Z) (s : state) :
  (forall c,
     attrs s = Some c -> c_checkpoint c = checkpoint -> c_gpu c = gpu ->
     refresh_cache E model checkpoint gpu s = (Ok tt, s) /\
     from_audio E audio sample_rate model checkpoint representation gpu s =
       match preprocess E audio representation sample_rate gpu with
       | Ok features =>
           (forward E (heap s (c_model c)) features,
            logged [EvForward (c_model c); EvPreprocess representation] s)
       | Raise e => (Raise e, logged [EvPreprocess representation] s)
       end) /\
  (forall r s',
     refresh_cache E model checkpoint gpu s = (r, s') ->
     (s' <> s -> stale (attrs s) checkpoint gpu = true) /\
     (stale (attrs s) checkpoint gpu = true -> r = Ok tt ->
      attrs s' = Some (mkCache (resolve_model E model) checkpoint gpu) /\
      placed (heap s' (resolve_model E model)) = device_of gpu /\
      exists sd,
        read_checkpoint (fs s) checkpoint = Ok sd /\
        In (EvLoadStateDict (resolve_model E model) sd) (log s'))).
Proof.
  split.
  - intros c Hc H1 H2.
    assert (Hst : stale (attrs s) checkpoint gpu = false).
    { apply stale_false_iff. eauto. }
    split; [now apply refresh_cache_hit|].
    unfold from_audio.
    erewrite bind_ok by (now apply refresh_cache_hit).
    unfold bind, emit, modify, lift, cached_model, get, ret, logged. simpl.
    destruct (preprocess E audio representation sample_rate gpu);
      [|reflexivity].
    rewrite Hc. reflexivity.
  - intros r s' H. split.
    + intros Hne. destruct (stale (attrs s) checkpoint gpu) eqn:Hst;
        [reflexivity|].
      rewrite (refresh_cache_hit E model checkpoint gpu s Hst) in H.
      injection H as _ <-. now contradiction Hne.
    + intros Hst ->.
      destruct (refresh_cache_miss E model checkpoint gpu s Hst H)
        as (_ & evs & Hlog & _ & _ & _ &
            [(e & He & _)|(_ & Ha & _ & Hp & sd & evs' & Hsd & Hev & Hin)]);
        [discriminate|].
      repeat split; auto. exists sd. split; [exact Hsd|].
      rewrite Hlog, Hev. simpl. right. apply in_or_app. now left.
Qed.

Lemma cached_model_overrides_argument_witness :
  from_audio Demo.env Demo.clip 16000 (Some 7) "single.pt" "w2v2fb" None
             Demo.warm
  = (Ok Demo.clip,
     logged [EvForward 0; EvPreprocess "w2v2fb"] Demo.warm).
Proof.
  refine (proj2 (proj1 (cached_model_overrides_argument
                          Demo.env Demo.clip 16000 (Some 7) "single.pt"
                          "w2v2fb" None Demo.warm)
                       (mkCache 0 "single.pt" None) _ _ _));
    reflexivity.
Defined.

(** C5.  When the source rate is the target rate, [resample] returns the
    buffer it was given and leaves the state as it was: nothing is copied
    or stored and no transform is built. *)
Theorem resample_same_rate_is_noop
    (E : Env) (audio : tensor) (rate : Z) (s : state) :
  resample E audio rate rate s = (Ok audio, s).
Proof. unfold resample. rewrite Z.eqb_refl. reflexivity. Qed.

(** ** Binding a checkpoint *)

Lemma remaps_cons ev l :
  remaps (ev :: l) =
  (match ev with EvPrint _ => 1 | _ => 0 end) + remaps l.
Proof. unfold remaps. simpl. destruct ev; reflexivity. Qed.

Lemma heap_set_same h r m : heap_set h r m r = m.
Proof. unfold heap_set. now rewrite Nat.eqb_refl. Qed.

(** The two attempts of [apply_checkpoint], spelled out. *)
Lemma apply_checkpoint_unfold (E : Env) model sd s :
  apply_checkpoint E model sd s =
  let first := load_state_dict E (heap s model) sd in
  let s1 := mkState (fs s) (heap_set (heap s) model (fst first)) (attrs s)
                    (EvLoadStateDict model sd :: log s) in
  match snd first with
  | None => (Ok tt, s1)
  | Some e1 =>
      if is_RuntimeError e1 then
        let sd' := ddp_to_single_state_dict E sd in
        let second := load_state_dict E (fst first) sd' in
        let s2 := mkState (fs s)
                          (heap_set (heap s1) model (fst second))
                          (attrs s)
                          (EvLoadStateDict model sd'
                           :: EvPrint remap_message
                           :: EvLoadStateDict model sd :: log s) in
        match snd second with
        | None => (Ok tt, s2)
        | Some e2 => (Raise (raised_while_handling e1 e2), s2)
        end
      else (Raise e1, s1)
  end.
Proof.
  unfold apply_checkpoint, try_except_RuntimeError, bind_state_dict, bind,
    emit, modify, get, set_heap, ret, raise. simpl.
  destruct (load_state_dict E (heap s model) sd) as [m1 [e1|]]; simpl;
    [|reflexivity].
  destruct (is_RuntimeError e1); simpl; [|reflexivity].
  rewrite heap_set_same.
  destruct (load_state_dict E m1 (ddp_to_single_state_dict E sd))
    as [m2 [e2|]]; reflexivity.
Qed.

(** C2 (as the code has it).  The remap-and-retry fallback fires exactly
    when the first binding raises an exception of class [RuntimeError],
    whatever made it fail; a first binding that raises an exception of
    another class propagates it unchanged, with no notice printed and no
    second attempt, and a first binding that returns is not retried. *)
Theorem remap_fires_on_RuntimeError
    (E : Env) (model : ref) (sd : state_dict) (s : state) :
  match snd (load_state_dict E (heap s model) sd) with
  | None =>
      fst (apply_checkpoint E model sd s) = Ok tt /\
      remaps (log (snd (apply_checkpoint E model sd s))) = remaps (log s)
  | Some e =>
      if is_RuntimeError e then
        remaps (log (snd (apply_checkpoint E model sd s)))
        = S (remaps (log s)) /\
        exists evs,
          log (snd (apply_checkpoint E model sd s))
          = EvLoadStateDict model (ddp_to_single_state_dict E sd)
            :: EvPrint remap_message :: evs
      else
        fst (apply_checkpoint E model sd s) = Raise e /\
        remaps (log (snd (apply_checkpoint E model sd s))) = remaps (log s)
  end.
Proof.
  rewrite apply_checkpoint_unfold. cbv zeta.
  destruct (snd (load_state_dict E (heap s model) sd)) as [e1|]; simpl.
  - destruct (is_RuntimeError e1); simpl.
    + destruct (snd (load_state_dict E _ (ddp_to_single_state_dict E sd)))
        as [e2|]; simpl; rewrite !remaps_cons; split; eauto.
    + rewrite remaps_cons. auto.
  - rewrite remaps_cons. auto.
Qed.

(** C2, as stated, fails: a checkpoint whose key is right and whose tensor
    has the wrong shape makes the first binding fail with no wrong-key
    condition, and the fallback fires all the same. *)
Lemma remap_fires_on_size_mismatch :
  exists e,
    snd (Torch.strict_load_state_dict Demo.net Demo.wrong_shape) = Some e /\
    Torch.is_name_mismatch e = false /\
    remaps (log (snd (apply_checkpoint Demo.env 0 Demo.wrong_shape Demo.boot)))
    = 1.
Proof. eexists. vm_compute. repeat split. Qed.

Section TorchFacts.

Import Torch.

Lemma shape_eqb_eq a b : shape_eqb a b = true <-> a = b.
Proof.
  revert b. induction a as [|x a IH]; intros [|y b]; simpl; split;
    intros H; try discriminate; try reflexivity.
  - apply andb_true_iff in H as [H1 H2].
    apply Nat.eqb_eq in H1. apply IH in H2. now subst.
  - injection H as -> ->. rewrite Nat.eqb_refl. simpl. now apply IH.
Qed.

Lemma dict_mem_In {V} k (d : dict V) :
  dict_mem k d = true <-> In k (dict_keys d).
Proof.
  unfold dict_mem. induction d as [|[k' v] d IH]; simpl.
  - split; [discriminate | contradiction].
  - destruct (String.eqb k k') eqn:Hk.
    + apply String.eqb_eq in Hk. subst. split; auto.
    + rewrite IH. apply String.eqb_neq in Hk. split; [auto|].
      intros [H|H]; [congruence | exact H].
Qed.

Lemma dict_set_fresh {V} k (v : V) d :
  dict_mem k d = false -> dict_set k v d = d ++ [(k, v)].
Proof.
  unfold dict_mem. induction d as [|[k' v'] d IH]; simpl; [reflexivity|].
  destruct (String.eqb k k'); [discriminate|].
  intros H. now rewrite IH.
Qed.

Lemma strip_add_prefix k : strip_prefix (ddp_prefix ++ k) = k.
Proof. reflexivity. Qed.

Lemma fold_strip_add_prefix sd acc :
  NoDup (dict_keys acc ++ dict_keys sd) ->
  fold_left (fun a (kv : string * tensor) =>
               dict_set (strip_prefix (fst kv)) (snd kv) a)
            (add_prefix sd) acc
  = acc ++ sd.
Proof.
  revert acc. induction sd as [|[k v] sd IH]; intros acc Hnd.
  - simpl. now rewrite app_nil_r.
  - change (fold_left _ (add_prefix ((k, v) :: sd)) acc)
      with (fold_left (fun a (kv : string * tensor) =>
                         dict_set (strip_prefix (fst kv)) (snd kv) a)
                      (add_prefix sd)
                      (dict_set (strip_prefix (ddp_prefix ++ k)) v acc)).
    rewrite strip_add_prefix. simpl in Hnd.
    rewrite dict_set_fresh.
    + rewrite IH.
      * now rewrite <- app_assoc.
      * unfold dict_keys in *. rewrite map_app. simpl.
        now rewrite <- app_assoc.
    + destruct (dict_mem k acc) eqn:Hm; [|reflexivity].
      apply dict_mem_In in Hm. apply NoDup_remove_2 in Hnd.
      exfalso. apply Hnd. apply in_or_app. now left.
Qed.

(** Stripping the prefix undoes adding it. *)
Lemma ddp_add_prefix sd :
  NoDup (dict_keys sd) -> ddp_to_single_state_dict (add_prefix sd) = sd.
Proof.
  intros H. unfold ddp_to_single_state_dict.
  now rewrite fold_strip_add_prefix.
Qed.

Lemma dict_get_add_prefix k sd :
  dict_get (ddp_prefix ++ k) (add_prefix sd) = dict_get k sd.
Proof.
  induction sd as [|[k' v] sd IH]; [reflexivity|].
  change (dict_get (ddp_prefix ++ k) (add_prefix ((k', v) :: sd)))
    with (if String.eqb k k' then Some v
          else dict_get (ddp_prefix ++ k) (add_prefix sd)).
  rewrite IH. reflexivity.
Qed.

Lemma keys_add_prefix sd :
  dict_keys (add_prefix sd) = map (fun k => (ddp_prefix ++ k)%string) (dict_keys sd).
Proof. unfold dict_keys, add_prefix. rewrite !map_map. reflexivity. Qed.

Lemma shortest_key (l : list string) :
  l <> [] ->
  exists n, In n l /\ forall k, In k l -> String.length n <= String.length k.
Proof.
  induction l as [|a l IH]; [congruence|]. intros _.
  destruct l as [|b l].
  - exists a. split; [now left|]. intros k [<-|[]]. lia.
  - destruct IH as (n & Hin & Hmin); [discriminate|].
    destruct (le_lt_dec (String.length a) (String.length n)) as [Hle|Hlt].
    + exists a. split; [now left|]. intros k [<-|Hk]; [lia|].
      specialize (Hmin k Hk). lia.
    + exists n. split; [now right|]. intros k [<-|Hk]; [lia|].
      now apply Hmin.
Qed.

Lemma filter_nil {A} (f : A -> bool) l :
  filter f l = [] -> forall x, In x l -> f x = false.
Proof.
  induction l as [|a l IH]; simpl; [contradiction|].
  destruct (f a) eqn:Ha; [discriminate|].
  intros H x [<-|Hx]; auto.
Qed.

Lemma length_prefixed k :
  String.length (ddp_prefix ++ k) = 7 + String.length k.
Proof. reflexivity. Qed.

End TorchFacts.

Section StrictBinding.

Import Torch.

Lemma copy_param_fst sd kp : fst (copy_param sd kp) = fst kp.
Proof.
  unfold copy_param. destruct (dict_get (fst kp) sd) as [t|]; [|reflexivity].
  destruct (shape_eqb (shape t) (shape (snd kp))); reflexivity.
Qed.

Lemma copy_param_shape sd kp :
  shape (snd (copy_param sd kp)) = shape (snd kp).
Proof.
  unfold copy_param. destruct (dict_get (fst kp) sd) as [t|]; [|reflexivity].
  destruct (shape_eqb (shape t) (shape (snd kp))) eqn:H; [|reflexivity].
  simpl. now apply shape_eqb_eq.
Qed.

Lemma dict_keys_copy sd ps :
  dict_keys (map (copy_param sd) ps) = dict_keys ps.
Proof.
  unfold dict_keys. rewrite map_map. apply map_ext. apply copy_param_fst.
Qed.

Lemma dict_mem_copy sd k ps :
  dict_mem k (map (copy_param sd) ps) = dict_mem k ps.
Proof.
  destruct (dict_mem k ps) eqn:H.
  - apply dict_mem_In. rewrite dict_keys_copy. now apply dict_mem_In.
  - destruct (dict_mem k (map (copy_param sd) ps)) eqn:H'; [|reflexivity].
    apply dict_mem_In in H'. rewrite dict_keys_copy in H'.
    apply dict_mem_In in H'. congruence.
Qed.

(** What a binding attempt copies in changes neither the names nor the
    shapes of the parameters, so it changes no later verdict. *)
Lemma binding_errors_after_load m sd' sd :
  binding_errors (fst (strict_load_state_dict m sd')) sd = binding_errors m sd.
Proof.
  unfold binding_errors, missing_keys, unexpected_keys, mismatched_keys.
  simpl. rewrite dict_keys_copy. f_equal. f_equal.
  - f_equal. apply filter_ext. intros k. now rewrite dict_mem_copy.
  - f_equal. rewrite flat_map_concat_map, map_map, <- flat_map_concat_map.
    apply flat_map_ext. intros kp.
    now rewrite copy_param_fst, copy_param_shape.
Qed.

Lemma keys_match_after_load m sd' sd :
  keys_match (fst (strict_load_state_dict m sd')) sd = keys_match m sd.
Proof.
  unfold keys_match, missing_keys, unexpected_keys. simpl.
  rewrite dict_keys_copy.
  replace (filter (fun k => negb (dict_mem k (map (copy_param sd') (params m))))
                  (dict_keys sd))
    with (filter (fun k => negb (dict_mem k (params m))) (dict_keys sd));
    [reflexivity|].
  apply filter_ext. intros k. now rewrite dict_mem_copy.
Qed.

Lemma strict_load_raises m sd :
  snd (strict_load_state_dict m sd) =
  match binding_errors m sd with
  | [] => None
  | errs => Some (Exn RuntimeError errs None)
  end.
Proof. reflexivity. Qed.

(** A mapping that names no parameter correctly fails with a wrong-key
    report. *)
Lemma keys_mismatch_raises m sd :
  keys_match m sd = false ->
  exists errs,
    snd (strict_load_state_dict m sd) = Some (Exn RuntimeError errs None) /\
    existsb is_key_error errs = true.
Proof.
  intros H. rewrite strict_load_raises. unfold binding_errors.
  unfold keys_match in H.
  destruct (missing_keys m sd) as [|k ks]; simpl.
  - destruct (unexpected_keys m sd) as [|k ks]; [discriminate|].
    simpl. eexists. split; reflexivity.
  - eexists. split; reflexivity.
Qed.

(** The prefixed keys of a mapping that binds directly never name all
    the parameters: the shortest parameter name is missing. *)
Lemma prefixed_keys_mismatch m sd :
  params m <> [] ->
  binding_errors m sd = [] ->
  keys_match m (add_prefix sd) = false.
Proof.
  intros Hne Hok.
  assert (Hunexp : unexpected_keys m sd = []).
  { unfold binding_errors in Hok.
    apply app_eq_nil in Hok as [_ Hok]. apply app_eq_nil in Hok as [Hok _].
    now apply map_eq_nil in Hok. }
  destruct (@shortest_key (dict_keys (params m))) as (n & Hin & Hmin).
  { unfold dict_keys. intros H. apply map_eq_nil in H. contradiction. }
  assert (Hmiss : In n (missing_keys m (add_prefix sd))).
  { unfold missing_keys. apply filter_In. split; [exact Hin|].
    destruct (dict_mem n (add_prefix sd)) eqn:Hm; [|reflexivity].
    apply dict_mem_In in Hm. rewrite keys_add_prefix in Hm.
    apply in_map_iff in Hm as (k & <- & Hk).
    pose proof (@filter_nil _ _ _ Hunexp k Hk) as Hmem.
    apply negb_false_iff in Hmem. apply dict_mem_In in Hmem.
    specialize (Hmin k Hmem). rewrite length_prefixed in Hmin. lia. }
  unfold keys_match. destruct (missing_keys m (add_prefix sd));
    [contradiction | reflexivity].
Qed.

(** After a binding without errors every parameter holds the tensor the
    mapping binds to its name. *)
Lemma bound_params m sd k t :
  binding_errors m sd = [] ->
  In (k, t) (params (fst (strict_load_state_dict m sd))) ->
  dict_get k sd = Some t.
Proof.
  intros Hok Hin. simpl in Hin.
  apply in_map_iff in Hin as ([k0 p] & Hcopy & Hin).
  unfold binding_errors in Hok.
  apply app_eq_nil in Hok as [Hmiss Hok]. apply app_eq_nil in Hok as [_ Hsz].
  apply map_eq_nil in Hmiss. apply map_eq_nil in Hsz.
  assert (Hbound : dict_mem k0 sd = true).
  { apply negb_false_iff.
    apply (@filter_nil _ _ _ Hmiss). unfold dict_keys.
    apply in_map_iff. exists (k0, p). auto. }
  unfold dict_mem in Hbound.
  unfold copy_param in Hcopy. simpl in Hcopy.
  destruct (dict_get k0 sd) as [t0|] eqn:Hget; [|discriminate].
  destruct (shape_eqb (shape t0) (shape p)) eqn:Hsh.
  - injection Hcopy as <- <-. exact Hget.
  - exfalso. unfold mismatched_keys in Hsz.
    rewrite flat_map_concat_map in Hsz.
    pose proof (in_concat (map (fun kp : string * tensor =>
        match dict_get (fst kp) sd with
        | Some t => if shape_eqb (shape t) (shape (snd kp)) then []
                    else [fst kp]
        | None => []
        end) (params m)) k0) as [_ Hc].
    rewrite Hsz in Hc. apply Hc.
    exists [k0]. split; [|now left].
    apply in_map_iff. exists (k0, p). simpl. rewrite Hget, Hsh. auto.
Qed.

End StrictBinding.

(** C3 (as the code has it), with [load_state_dict] the strict binding of
    [torch] and the remap the prefix stripping of the spec.  For a module
    with at least one parameter and a mapping that would bind directly (its
    keys are the parameter names, its tensors have their shapes), binding
    the mapping with the distributed-training prefix on every key succeeds
    after exactly one remap: the first attempt raises, the notice is printed
    once, the stripped mapping is the unprefixed one, and afterwards every
    parameter holds the tensor bound to its prefixed name.  For a mapping
    whose keys match the parameter names neither as they are nor stripped,
    the call raises the second attempt's [RuntimeError], a wrong-key report
    whose context is the first attempt's wrong-key [RuntimeError]; the
    attributes of [from_audio] are not touched. *)
Theorem remap_retry_outcomes
    (E : Env) (model : ref) (s : state) :
  load_state_dict E = Torch.strict_load_state_dict ->
  ddp_to_single_state_dict E = Torch.ddp_to_single_state_dict ->
  (forall sd,
     params (heap s model) <> [] ->
     NoDup (dict_keys sd) ->
     Torch.binding_errors (heap s model) sd = [] ->
     exists s',
       apply_checkpoint E model (Torch.add_prefix sd) s = (Ok tt, s') /\
       remaps (log s') = S (remaps (log s)) /\
       Torch.ddp_to_single_state_dict (Torch.add_prefix sd) = sd /\
       dict_keys (params (heap s' model)) = dict_keys (params (heap s model)) /\
       forall k t,
         In (k, t) (params (heap s' model)) ->
         dict_get (Torch.ddp_prefix ++ k) (Torch.add_prefix sd) = Some t) /\
  (forall sd,
     Torch.keys_match (heap s model) sd = false ->
     Torch.keys_match (heap s model) (Torch.ddp_to_single_state_dict sd)
     = false ->
     exists first second s',
       apply_checkpoint E model sd s
       = (Raise (Exn RuntimeError second
                     (Some (Exn RuntimeError first None))), s') /\
       existsb Torch.is_key_error first = true /\
       existsb Torch.is_key_error second = true /\
       remaps (log s') = S (remaps (log s)) /\
       attrs s' = attrs s).
Proof.
  intros HE1 HE2. split.
  - intros sd Hne Hnd Hok.
    destruct (@keys_mismatch_raises _ _ (@prefixed_keys_mismatch _ _ Hne Hok))
      as (errs & Hraise & _).
    rewrite apply_checkpoint_unfold, HE1, HE2. cbv zeta.
    rewrite Hraise. cbn [is_RuntimeError exn_cls].
    rewrite (@ddp_add_prefix _ Hnd), strict_load_raises,
      binding_errors_after_load, Hok.
    eexists. split; [reflexivity|]. cbn [log heap].
    rewrite heap_set_same.
    split; [now rewrite !remaps_cons|]. split; [reflexivity|]. split.
    + simpl. now rewrite !dict_keys_copy.
    + intros k t Hin. rewrite dict_get_add_prefix.
      apply bound_params with (m := fst (Torch.strict_load_state_dict
                                           (heap s model) (Torch.add_prefix sd))).
      * now rewrite binding_errors_after_load.
      * exact Hin.
  - intros sd H1 H2.
    destruct (@keys_mismatch_raises _ _ H1) as (first & Hr1 & Hk1).
    rewrite <- (keys_match_after_load (heap s model) sd) in H2.
    destruct (@keys_mismatch_raises _ _ H2) as (second & Hr2 & Hk2).
    rewrite apply_checkpoint_unfold, HE1, HE2. cbv zeta.
    rewrite Hr1. cbn [is_RuntimeError exn_cls]. rewrite Hr2.
    exists first, second. eexists. split; [reflexivity|].
    cbn [log attrs].
    split; [exact Hk1|]. split; [exact Hk2|]. split; [|reflexivity].
    now rewrite !remaps_cons.
Qed.

Lemma remap_retry_outcomes_witness :
  exists s',
    apply_checkpoint Demo.env 0 (Torch.add_prefix Demo.trained) Demo.boot
    = (Ok tt, s') /\
    remaps (log s') = 1.
Proof.
  destruct (proj1 (remap_retry_outcomes Demo.env 0 Demo.boot
                     eq_refl eq_refl) Demo.trained)
    as (s' & Hrun & Hremaps & _).
  - discriminate.
  - repeat constructor; simpl; tauto.
  - reflexivity.
  - exists s'. split; [exact Hrun | exact Hremaps].
Defined.

(** C3, as stated, fails in its second half: for a mapping whose one key
    matches no parameter, as it is or stripped, the call raises an exception
    of class [RuntimeError], not a [CheckpointIncompatibleError]. *)
Lemma incompatible_checkpoint_raises_RuntimeError :
  Torch.keys_match Demo.net Demo.unrelated = false /\
  Torch.keys_match Demo.net (Torch.ddp_to_single_state_dict Demo.unrelated)
  = false /\
  exists e,
    fst (apply_checkpoint Demo.env 0 Demo.unrelated Demo.boot) = Raise e /\
    exn_cls e = RuntimeError /\
    exn_cls e <> OtherError "CheckpointIncompatibleError".
Proof.
  split; [reflexivity|]. split; [reflexivity|].
  eexists. split; [vm_compute; reflexivity|]. split; [reflexivity|].
  discriminate.
Qed.

(** ** Paths *)

Section PathFacts.

Import Pathlib.

Local Open Scope string_scope.
Local Open Scope nat_scope.

Lemma length_app_string s t :
  String.length (s ++ t) = String.length s + String.length t.
Proof. induction s as [|c s IH]; simpl; [reflexivity | now rewrite IH]. Qed.

Lemma rfind_dot_pt s : rfind_dot (s ++ ".pt") = Some (String.length s).
Proof.
  induction s as [|c s IH]; [reflexivity|].
  simpl. simpl in IH. now rewrite IH.
Qed.

Lemma take_app s t : take (String.length s) (s ++ t) = s.
Proof. induction s as [|c s IH]; simpl; [now destruct t | now rewrite IH]. Qed.

Lemma drop_app s t : drop (String.length s) (s ++ t) = t.
Proof. induction s as [|c s IH]; simpl; [reflexivity | exact IH]. Qed.

Lemma length_drop i s :
  i <= String.length s -> String.length (drop i s) = String.length s - i.
Proof.
  revert s. induction i as [|i IH]; intros s H; simpl.
  - now rewrite Nat.sub_0_r.
  - destruct s as [|c s]; simpl in *; [lia|]. apply IH. lia.
Qed.

Lemma take_nonempty i s :
  0 < i -> s <> "" -> take i s <> "".
Proof. destruct i, s; simpl; intros; try lia; congruence. Qed.

(** The stem of a non-empty name is not empty. *)
Lemma stem_of_nonempty nm : nm <> "" -> stem_of nm <> "".
Proof.
  intros H. unfold stem_of, suffix_start.
  destruct (rfind_dot nm) as [i|]; [|exact H].
  destruct ((0 <? i) && (i <? String.length nm - 1)) eqn:Hi; [|exact H].
  apply andb_true_iff in Hi as [H0 _]. apply Nat.ltb_lt in H0.
  now apply take_nonempty.
Qed.

(** A name that ends in [.pt] after a non-empty stem has that stem and
    that suffix. *)
Lemma suffix_start_pt st :
  st <> "" -> suffix_start (st ++ ".pt") = Some (String.length st).
Proof.
  intros H. unfold suffix_start. rewrite rfind_dot_pt, length_app_string.
  destruct st as [|c st]; [congruence|]. simpl String.length.
  replace (0 <? S (String.length st)) with true
    by (symmetry; apply Nat.ltb_lt; lia).
  replace (S (String.length st) <? S (String.length st) + 3 - 1) with true
    by (symmetry; apply Nat.ltb_lt; lia).
  reflexivity.
Qed.

(** The name [with_suffix] builds is the stem followed by the suffix. *)
Lemma new_name_is_stem nm sfx :
  (if String.eqb (suffix_of nm) ""
   then nm ++ sfx
   else take (String.length nm - String.length (suffix_of nm)) nm ++ sfx)
  = stem_of nm ++ sfx.
Proof.
  unfold suffix_of, stem_of, suffix_start.
  destruct (rfind_dot nm) as [i|]; [|reflexivity].
  destruct ((0 <? i) && (i <? String.length nm - 1)) eqn:Hi; [|reflexivity].
  apply andb_true_iff in Hi as [H0 H1].
  apply Nat.ltb_lt in H0. apply Nat.ltb_lt in H1.
  assert (Hlen : String.length (drop i nm) = String.length nm - i)
    by (apply length_drop; lia).
  destruct (String.eqb (drop i nm) "") eqn:He.
  - apply String.eqb_eq in He. rewrite He in Hlen. simpl in Hlen. lia.
  - rewrite Hlen.
    replace (String.length nm - (String.length nm - i)) with i by lia.
    reflexivity.
Qed.

(** [p.with_suffix('.pt')] on a path with a final component: the result
    is in the same directory, has the same stem, and its suffix is [.pt]. *)
Lemma with_suffix_pt p :
  name p <> "" ->
  exists q,
    with_suffix p ".pt" = Ok q /\
    parent q = parent p /\
    name q = stem p ++ ".pt" /\
    stem q = stem p /\
    suffix q = ".pt".
Proof.
  intros Hn. unfold with_suffix.
  cbn [contains_sep Ascii.eqb orb starts_with_dot is_dot negb andb].
  replace (String.eqb ".pt" "") with false by reflexivity.
  replace (String.eqb ".pt" ".") with false by reflexivity.
  cbn [negb andb orb Bool.eqb].
  replace (is_dot ".") with true by reflexivity. cbn [negb andb orb].
  destruct (String.eqb (name p) "") eqn:He;
    [apply String.eqb_eq in He; contradiction|].
  unfold suffix. rewrite new_name_is_stem.
  eexists. split; [reflexivity|].
  assert (Hname : name (mkPath (anchor p)
                               (removelast (parts p) ++ [stem_of (name p) ++ ".pt"]))
                  = stem_of (name p) ++ ".pt").
  { unfold name. cbn [parts]. apply last_last. }
  pose proof (suffix_start_pt (stem_of_nonempty Hn)) as Hs.
  repeat split.
  - unfold parent. cbn [anchor parts]. now rewrite removelast_last.
  - exact Hname.
  - unfold stem at 1. rewrite Hname. unfold stem_of at 1. rewrite Hs.
    apply take_app.
  - unfold suffix. rewrite Hname. unfold suffix_of. rewrite Hs.
    apply drop_app.
Qed.

End PathFacts.

(** ** The batch entry point *)

Lemma loaded_cons ev l :
  loaded (ev :: l) =
  loaded l ++ match ev with EvLoadAudio p => [p] | _ => [] end.
Proof.
  unfold loaded. simpl. rewrite flat_map_app. simpl.
  now rewrite app_nil_r.
Qed.

Lemma saved_cons ev l :
  saved (ev :: l) = saved l ++ match ev with EvSave p => [p] | _ => [] end.
Proof.
  unfold saved. simpl. rewrite flat_map_app. simpl.
  now rewrite app_nil_r.
Qed.

Lemma loaded_app l1 l2 : loaded (l1 ++ l2) = loaded l2 ++ loaded l1.
Proof. unfold loaded. now rewrite rev_app_distr, flat_map_app. Qed.

Lemma saved_app l1 l2 : saved (l1 ++ l2) = saved l2 ++ saved l1.
Proof. unfold saved. now rewrite rev_app_distr, flat_map_app. Qed.

Lemma combine_fst {A B} (l : list A) (l' : list B) :
  map fst (combine l l') = firstn (Nat.min (length l) (length l')) l.
Proof.
  revert l'. induction l as [|a l IH]; intros [|b l']; simpl; try reflexivity.
  now rewrite IH.
Qed.

Lemma combine_snd {A B} (l : list A) (l' : list B) :
  map snd (combine l l') = firstn (Nat.min (length l) (length l')) l'.
Proof.
  revert l'. induction l as [|a l IH]; intros [|b l']; simpl; try reflexivity.
  now rewrite IH.
Qed.

Section BatchFacts.

Variable E : Env.

(** The cache refresh reads no audio file and writes no output file. *)
Lemma refresh_cache_quiet model checkpoint gpu s r s' :
  refresh_cache E model checkpoint gpu s = (r, s') ->
  loaded (log s') = loaded (log s) /\ saved (log s') = saved (log s).
Proof.
  intros H. destruct (stale (attrs s) checkpoint gpu) eqn:Hst.
  - destruct (refresh_cache_miss E model checkpoint gpu s Hst H)
      as (_ & evs & Hlog & _ & Hl & Hs & _).
    rewrite Hlog, loaded_app, saved_app, Hl, Hs, !app_nil_r.
    now rewrite loaded_cons, saved_cons, !app_nil_r.
  - rewrite (refresh_cache_hit E model checkpoint gpu s Hst) in H.
    now injection H as _ <-.
Qed.

Lemma from_audio_quiet audio sample_rate model checkpoint representation gpu
      s r s' :
  from_audio E audio sample_rate model checkpoint representation gpu s
  = (r, s') ->
  loaded (log s') = loaded (log s) /\ saved (log s') = saved (log s).
Proof.
  unfold from_audio. unfold bind at 1.
  destruct (refresh_cache E model checkpoint gpu s) as [[[]|e] s1] eqn:Hr.
  - apply refresh_cache_quiet in Hr as [Hl Hs].
    unfold bind, emit, modify, lift, cached_model, get, ret, raise. simpl.
    destruct (preprocess E audio representation sample_rate gpu).
    + destruct (attrs s1); simpl; intros [= <- <-]; simpl;
        rewrite ?loaded_cons, ?saved_cons, ?app_nil_r; auto.
    + intros [= <- <-]. simpl.
      rewrite ?loaded_cons, ?saved_cons, ?app_nil_r; auto.
  - intros [= <- <-]. now apply refresh_cache_quiet in Hr.
Qed.

(** Reading the audio file and running the model on it. *)
Lemma from_file_trace file checkpoint gpu s r s1 :
  from_file E file checkpoint gpu s = (r, s1) ->
  loaded (log s1) = loaded (log s) ++ [file] /\
  saved (log s1) = saved (log s).
Proof.
  intros H. unfold from_file in H.
  apply bind_inv in H as [([] & s2 & H1 & H)|(e & H1 & _)];
    [|discriminate].
  injection H1 as <-.
  apply bind_inv in H as [(s3 & s4 & H1 & H)|(e & H1 & _)];
    [|discriminate].
  injection H1 as <- <-.
  apply bind_inv in H as [(audio & s4 & H1 & H)|(e & H1 & ->)].
  2:{ unfold lift in H1. injection H1 as _ <-. cbn [log].
      rewrite loaded_cons, saved_cons, app_nil_r. auto. }
  unfold lift in H1. injection H1 as _ <-.
  apply bind_inv in H as [([] & s4 & H1 & H)|(e & H1 & _)];
    [|discriminate].
  injection H1 as <-.
  apply from_audio_quiet in H as [Hl Hs]. cbn [log] in Hl, Hs.
  rewrite !loaded_cons, app_nil_r in Hl.
  rewrite !saved_cons, !app_nil_r in Hs. auto.
Qed.

(** One pair: the audio file is read; the output file is written when
    the call returns, and at most that one when it raises. *)
Lemma from_file_to_file_trace audio_file output_file checkpoint gpu s r s' :
  from_file_to_file E audio_file output_file checkpoint gpu s = (r, s') ->
  loaded (log s') = loaded (log s) ++ [audio_file] /\
  ((r = Ok tt /\ saved (log s') = saved (log s) ++ [output_file]) \/
   (exists e, r = Raise e /\
              (saved (log s') = saved (log s) \/
               saved (log s') = saved (log s) ++ [output_file]))).
Proof.
  intros H. unfold from_file_to_file in H.
  apply bind_inv in H as [(t & s1 & H1 & H2)|(e & H1 & ->)].
  - apply from_file_trace in H1 as [Hl Hs].
    unfold torch_save, bind, emit, modify, set_file, raise in H2.
    simpl in H2.
    destruct (writable E output_file); injection H2 as <- <-; cbn [log];
      rewrite loaded_cons, saved_cons, app_nil_r, Hl, Hs;
      (split; [reflexivity|]); [left | right]; eauto.
  - apply from_file_trace in H1 as [Hl Hs]. split; [exact Hl|].
    right. eauto.
Qed.

(** The loop over the pairs: the files read and written are the first
    components and the first components of the pairs, in order; all of them
    when the loop returns. *)
Lemma batch_trace checkpoint gpu (pairs : list (Pathlib.Path * Pathlib.Path))
      s r s' :
  for_each (fun '(audio_file, output_file) =>
              from_file_to_file E audio_file output_file checkpoint gpu)
           pairs s = (r, s') ->
  exists k j,
    j <= k /\ k <= length pairs /\
    loaded (log s') = loaded (log s) ++ firstn k (map fst pairs) /\
    saved (log s') = saved (log s) ++ firstn j (map snd pairs) /\
    (r = Ok tt -> k = length pairs /\ j = length pairs).
Proof.
  revert s. induction pairs as [|[a o] pairs IH]; intros s.
  - intros [= <- <-]. exists 0, 0. simpl. rewrite !app_nil_r.
    repeat split; auto.
  - cbn [for_each]. unfold bind at 1.
    destruct (from_file_to_file E a o checkpoint gpu s) as [[[]|e] s1] eqn:H1.
    + intros H2. apply IH in H2 as (k & j & Hjk & Hk & Hl & Hs & Hok).
      apply from_file_to_file_trace in H1
        as [Hl1 [[_ Hs1]|(e & He & _)]]; [|discriminate].
      exists (S k), (S j). simpl.
      rewrite Hl, Hl1, Hs, Hs1, <- !app_assoc. simpl.
      split; [lia|]. split; [lia|]. split; [reflexivity|].
      split; [reflexivity|]. intros Hr. destruct (Hok Hr). lia.
    + intros [= <- <-].
      apply from_file_to_file_trace in H1
        as [Hl1 [[Hr _]|(e' & _ & [Hs1|Hs1])]]; [discriminate| |].
      * exists 1, 0. simpl. rewrite Hl1, Hs1, app_nil_r.
        split; [lia|]. split; [lia|]. split; [reflexivity|].
        split; [reflexivity|]. discriminate.
      * exists 1, 1. simpl. rewrite Hl1, Hs1.
        split; [lia|]. split; [lia|]. split; [reflexivity|].
        split; [reflexivity|]. discriminate.
Qed.

End BatchFacts.

(** C4 (as the code has it).  [from_files_to_files] with output paths given
    checks no lengths and raises no arity error: it pairs the two lists
    positionally with [zip] and works through the pairs in order.  Whatever
    the outcome, the audio files it reads are the first [k] inputs and the
    files it writes the first [j] outputs, with [j <= k] and [k] at most the
    length of the shorter list; when the call returns, [k] and [j] are that
    length, so with lists of equal length no pair is left out. *)
Theorem batch_pairs_inputs_with_outputs
    (E : Env) (audio_files output_files : list Pathlib.Path)
    (checkpoint : string) (gpu : option Z) (s s' : state) (r : result unit) :
  from_files_to_files E audio_files (Some output_files) checkpoint gpu s
  = (r, s') ->
  exists k j,
    j <= k /\
    k <= Nat.min (length audio_files) (length output_files) /\
    loaded (log s') = loaded (log s) ++ firstn k audio_files /\
    saved (log s') = saved (log s) ++ firstn j output_files /\
    (r = Ok tt ->
     k = Nat.min (length audio_files) (length output_files) /\
     j = Nat.min (length audio_files) (length output_files)).
Proof.
  unfold from_files_to_files. unfold bind at 1, ret at 1.
  intros H. apply batch_trace in H as (k & j & Hjk & Hk & Hl & Hs & Hok).
  rewrite length_combine in Hk, Hok.
  rewrite combine_fst, firstn_firstn in Hl.
  rewrite combine_snd, firstn_firstn in Hs.
  rewrite Nat.min_l in Hl by exact Hk.
  rewrite Nat.min_l in Hs by lia.
  exists k, j. auto.
Qed.

Lemma batch_pairs_inputs_with_outputs_witness :
  exists k j,
    j <= k /\ k <= 1 /\
    loaded (log (snd (from_files_to_files
                        Demo.env [Demo.a_wav; Demo.b_wav] (Some [Demo.a_pt])
                        "single.pt" None Demo.boot)))
    = firstn k [Demo.a_wav; Demo.b_wav].
Proof.
  destruct (from_files_to_files Demo.env [Demo.a_wav; Demo.b_wav]
              (Some [Demo.a_pt]) "single.pt" None Demo.boot)
    as [r s'] eqn:H.
  destruct (batch_pairs_inputs_with_outputs _ _ _ _ _ _ H)
    as (k & j & Hjk & Hk & Hl & _).
  exists k, j. auto.
Defined.

(** C4, as stated, fails: with two inputs and one output the call returns
    normally, having read the first input and written the one output; the
    second input is dropped without an error. *)
Lemma unequal_lengths_are_truncated :
  let run := from_files_to_files
               Demo.env [Demo.a_wav; Demo.b_wav] (Some [Demo.a_pt])
               "single.pt" None Demo.boot in
  length [Demo.a_wav; Demo.b_wav] <> length [Demo.a_pt] /\
  fst run = Ok tt /\
  loaded (log (snd run)) = [Demo.a_wav] /\
  saved (log (snd run)) = [Demo.a_pt].
Proof. vm_compute. repeat split. discriminate. Qed.

Section DefaultOutputs.

Import Pathlib.

(** The default output paths of a list of inputs that all have a final
    component. *)
Lemma default_output_paths (audio_files : list Path) :
  Forall (fun p => name p <> EmptyString) audio_files ->
  exists outs,
    map_result (fun file => with_suffix file ".pt") audio_files = Ok outs /\
    Forall2 (fun i o =>
               parent o = parent i /\
               name o = (stem i ++ ".pt")%string /\
               stem o = stem i /\
               suffix o = ".pt"%string)
            audio_files outs.
Proof.
  induction 1 as [|p ps Hp _ IH].
  - exists []. split; [reflexivity | constructor].
  - destruct IH as (outs & Hmap & Hall).
    destruct (@with_suffix_pt p Hp) as (q & Hq & Hprops).
    exists (q :: outs). simpl. rewrite Hq, Hmap.
    split; [reflexivity | now constructor].
Qed.

End DefaultOutputs.

(** C7.  With [output_files] omitted, [from_files_to_files] gives every
    input that has a final component the output path made by
    [with_suffix('.pt')]: same directory, same stem, suffix [.pt] in place
    of the input's suffix (put after the name when the input has none).  The
    outputs are paired with the inputs position by position: the call does
    what it does when given these outputs explicitly, and when it returns it
    has read every input and written every such output, in order. *)
Theorem default_outputs_replace_extension
    (E : Env) (audio_files : list Pathlib.Path) (checkpoint : string)
    (gpu : option Z) :
  Forall (fun p => Pathlib.name p <> EmptyString) audio_files ->
  exists outs,
    Forall2 (fun i o =>
               Pathlib.parent o = Pathlib.parent i /\
               Pathlib.name o = (Pathlib.stem i ++ ".pt")%string /\
               Pathlib.stem o = Pathlib.stem i /\
               Pathlib.suffix o = ".pt"%string)
            audio_files outs /\
    forall s,
      from_files_to_files E audio_files None checkpoint gpu s
      = from_files_to_files E audio_files (Some outs) checkpoint gpu s /\
      forall s',
        from_files_to_files E audio_files None checkpoint gpu s = (Ok tt, s') ->
        loaded (log s') = loaded (log s) ++ audio_files /\
        saved (log s') = saved (log s) ++ outs.
Proof.
  intros Hnames.
  destruct (@default_output_paths audio_files Hnames) as (outs & Hmap & Hall).
  exists outs. split; [exact Hall|]. intros s.
  assert (Heq : from_files_to_files E audio_files None checkpoint gpu s
                = from_files_to_files E audio_files (Some outs) checkpoint gpu s).
  { unfold from_files_to_files, bind, lift, ret. now rewrite Hmap. }
  split; [exact Heq|]. intros s' Hrun. rewrite Heq in Hrun.
  unfold from_files_to_files in Hrun. unfold bind at 1, ret at 1 in Hrun.
  apply batch_trace in Hrun as (k & j & _ & _ & Hl & Hs & Hok).
  destruct (Hok eq_refl) as [-> ->].
  pose proof (Forall2_length Hall) as Hlen.
  rewrite length_combine, <- Hlen, Nat.min_id in Hl, Hs.
  rewrite combine_fst, <- Hlen, Nat.min_id, firstn_firstn, Nat.min_id,
    firstn_all in Hl.
  rewrite combine_snd, <- Hlen, Nat.min_id, firstn_firstn, Nat.min_id,
    Hlen, firstn_all in Hs.
  auto.
Qed.

Lemma default_outputs_replace_extension_witness :
  exists outs,
    Forall2 (fun i o =>
               Pathlib.parent o = Pathlib.parent i /\
               Pathlib.name o = (Pathlib.stem i ++ ".pt")%string /\
               Pathlib.stem o = Pathlib.stem i /\
               Pathlib.suffix o = ".pt"%string)
            [Demo.a_wav; Demo.b_wav] outs.
Proof.
  destruct (default_outputs_replace_extension
              Demo.env (audio_files := [Demo.a_wav; Demo.b_wav])
              "single.pt" None)
    as (outs & Hall & _).
  - repeat constructor; discriminate.
  - exists outs. exact Hall.
Defined.

(** ** The EnCodec representation *)

Section EncodecFacts.

Import Encodec.

Variable E : Encodec.Env.

Lemma length_nearest_row output r size :
  length (nearest_row output r size) = size.
Proof. unfold nearest_row. now rewrite length_map, length_seq. Qed.

Lemma length_flat_rows (f : nat -> list Z) size rows :
  (forall r, length (f r) = size) ->
  length (flat_map f rows) = length rows * size.
Proof.
  intros Hf. induction rows as [|r rows IH]; [reflexivity|].
  cbn [flat_map]. rewrite length_app, Hf, IH. reflexivity.
Qed.

(** Interpolation sets the last dimension to the requested length, which
    is positive, keeps the other two, and fills every row. *)
Lemma interpolate_frames output size out :
  interpolate output size = Ok out ->
  frame_count_is size out /\ (0 < size)%Z /\
  batch out = batch output /\ codebooks out = codebooks output /\
  length (entries out) = batch out * codebooks out * frames out.
Proof.
  unfold interpolate, frame_count_is.
  destruct (size <=? 0)%Z eqn:Hs; [discriminate|]. cbn [orb].
  destruct (Nat.eqb (codebooks output) 0 || Nat.eqb (frames output) 0);
    [discriminate|].
  intros [= <-]. apply Z.leb_gt in Hs. cbn [frames batch codebooks entries].
  split; [apply Z2Nat.id; lia|]. split; [exact Hs|].
  split; [reflexivity|]. split; [reflexivity|].
  rewrite (@length_flat_rows _ (Z.to_nat size));
    [now rewrite length_seq | intros r; apply length_nearest_row].
Qed.

Lemma interpolate_total output size :
  (0 < size)%Z -> rows_nonempty output = true ->
  exists out, interpolate output size = Ok out.
Proof.
  intros Hs Hrows. unfold interpolate, rows_nonempty in *.
  apply negb_true_iff in Hrows. rewrite Hrows.
  replace (size <=? 0)%Z with false by (symmetry; apply Z.leb_gt; lia).
  simpl. eauto.
Qed.

(** What [from_audios] returns has come out of the interpolation to
    [audio.shape[-1] // HOPSIZE] of what the codec made of the resampled
    buffer. *)
Lemma from_audios_ends_in_interpolate audio lengths sample_rate gpu s out s' n :
  last_dim audio = Ok n ->
  from_audios E audio lengths sample_rate gpu s = (Ok out, s') ->
  HOPSIZE E <> 0%Z /\
  exists t resampled output,
    kernel E t audio = Ok resampled /\
    encode E resampled = Ok output /\
    interpolate output (Z.of_nat n / HOPSIZE E) = Ok out.
Proof.
  intros Hn H. unfold from_audios in H.
  apply bind_inv_ok in H as (n' & s1 & H1 & H).
  apply lift_inv_ok in H1 as [H1 ->]. rewrite Hn in H1. injection H1 as <-.
  apply bind_inv_ok in H as (el & s1 & H1 & H).
  apply lift_inv_ok in H1 as [H1 ->]. unfold floordiv in H1.
  destruct (Z.eqb (HOPSIZE E) 0) eqn:Hh; [discriminate|].
  injection H1 as <-. apply Z.eqb_neq in Hh. split; [exact Hh|].
  do 2 (apply bind_inv_ok in H as (? & ? & _ & H)).
  unfold encode_and_upsample in H.
  do 2 (apply bind_inv_ok in H as (? & ? & _ & H)).
  apply bind_inv_ok in H as (t & ? & _ & H).
  apply bind_inv_ok in H as (? & ? & _ & H).
  apply bind_inv_ok in H as (resampled & ? & Hk & H).
  apply lift_inv_ok in Hk as [Hk _].
  apply bind_inv_ok in H as (? & ? & _ & H).
  apply bind_inv_ok in H as (output & ? & He & H).
  apply lift_inv_ok in He as [He _].
  apply lift_inv_ok in H as [H _]. eauto 6.
Qed.

End EncodecFacts.

Section EncodecRuns.

Import Encodec.

Variable E : Encodec.Env.

(** With the device reachable, the codec obtainable and an encoder that
    returns non-empty rows, [from_audios] returns whenever the buffer holds
    at least one hop. *)
Lemma from_audios_returns audio lengths sample_rate gpu s n :
  last_dim audio = Ok n ->
  (0 < HOPSIZE E <= Z.of_nat n)%Z ->
  available E (device_of gpu) = true ->
  codec_obtainable E = true ->
  (forall t a, exists a', kernel E t a = Ok a') ->
  (forall a, exists c, encode E a = Ok c /\ rows_nonempty c = true) ->
  consistent s ->
  exists out s', from_audios E audio lengths sample_rate gpu s = (Ok out, s').
Proof.
  intros Hn Hh Hav Hcodec Hker Henc Hcons.
  assert (Hel : (0 < Z.of_nat n / HOPSIZE E)%Z)
    by (apply Z.div_str_pos; lia).
  unfold from_audios, cache_resampler, cache_model, encode_and_upsample,
    bind, lift, get, floordiv. rewrite Hn.
  replace (Z.eqb (HOPSIZE E) 0) with false by (symmetry; apply Z.eqb_neq; lia).
  assert (Hstale : exists b, resampler_stale s sample_rate = Ok b).
  { unfold resampler_stale. destruct (resampler_attr s) eqn:Hr; [|eauto].
    destruct (sample_rate_attr s) eqn:Hs; [eauto|].
    exfalso. apply Hcons; [rewrite Hr; discriminate | exact Hs]. }
  destruct Hstale as [b Hb]. rewrite Hb.
  unfold to_device, emit, modify, set_sample_rate, set_resampler, set_model,
    ret, raise. rewrite Hav, Hcodec.
  destruct b; simpl.
  - destruct (model_attr s); simpl;
      match goal with
      | |- context [kernel E ?t ?a] => destruct (Hker t a) as (a' & ->)
      end; simpl;
      match goal with
      | |- context [encode E ?a] =>
          destruct (Henc a) as (c & -> & Hrows)
      end;
      destruct (interpolate_total c Hel Hrows) as [out ->]; eauto.
  - destruct (resampler_attr s) as [t|] eqn:Hr.
    + destruct (model_attr s); simpl; rewrite ?Hr;
        match goal with
        | |- context [kernel E ?t ?a] => destruct (Hker t a) as (a' & ->)
        end; simpl;
        match goal with
        | |- context [encode E ?a] =>
            destruct (Henc a) as (c & -> & Hrows)
        end;
        destruct (interpolate_total c Hel Hrows) as [out ->]; eauto.
    + unfold resampler_stale in Hb. rewrite Hr in Hb. discriminate.
Qed.

End EncodecRuns.

Lemma last_default_irrelevant {A} (a : A) l d d' :
  last (a :: l) d = last (a :: l) d'.
Proof.
  revert a. induction l as [|b l IH]; intros a; [reflexivity|].
  change (last (b :: l) d = last (b :: l) d'). apply IH.
Qed.

Lemma last_dim_unsqueeze0 audio n :
  Encodec.last_dim audio = Ok n ->
  Encodec.last_dim (Encodec.unsqueeze0 audio) = Ok n.
Proof.
  unfold Encodec.last_dim, Encodec.unsqueeze0. simpl.
  destruct (shape audio) as [|d ds]; [discriminate|].
  intros [= <-]. f_equal. destruct ds as [|b ds]; [reflexivity|].
  change (last (b :: ds) 1 = last (b :: ds) d).
  apply last_default_irrelevant.
Qed.

(** X18.  The EnCodec extractor fixes the frame count by the hop size.
    On a buffer whose last dimension holds [n] samples, with a positive hop
    size [H], every result of [from_audios] (and of [from_audio], which
    adds the batch dimension to a two-dimensional buffer) is the
    nearest-neighbour interpolation to [n // H] frames of what the codec
    made of the resampled buffer: its last dimension is exactly [n // H],
    which is positive, its batch and codebook dimensions are those the
    codec returned, and every row is filled.  So the frame count is within
    one frame of [n / H]: [frames * H <= n < (frames + 1) * H].  Such a
    result is produced whenever the buffer holds at least one hop, the
    device can be reached, the codec can be built, the transform applies
    and the codec returns codes whose codebook and frame dimensions are
    not zero. *)
Theorem encodec_frame_count
    (E : Encodec.Env) (audio : tensor) (lengths : nat) (sample_rate : Z)
    (gpu : option Z) (s : Encodec.state) (n : nat) :
  (0 < Encodec.HOPSIZE E)%Z ->
  Encodec.last_dim audio = Ok n ->
  (forall out s',
     Encodec.from_audios E audio lengths sample_rate gpu s = (Ok out, s') \/
     Encodec.from_audio E audio sample_rate gpu s = (Ok out, s') ->
     Encodec.frame_count_is (Z.of_nat n / Encodec.HOPSIZE E) out /\
     (0 < Z.of_nat n / Encodec.HOPSIZE E)%Z /\
     length (Encodec.entries out)
     = Encodec.batch out * Encodec.codebooks out * Encodec.frames out /\
     exists buffer t resampled output,
       (buffer = audio \/ buffer = Encodec.unsqueeze0 audio) /\
       Encodec.kernel E t buffer = Ok resampled /\
       Encodec.encode E resampled = Ok output /\
       Encodec.interpolate output (Z.of_nat n / Encodec.HOPSIZE E) = Ok out /\
       Encodec.batch out = Encodec.batch output /\
       Encodec.codebooks out = Encodec.codebooks output) /\
  (Z.of_nat n / Encodec.HOPSIZE E * Encodec.HOPSIZE E <= Z.of_nat n
   < (Z.of_nat n / Encodec.HOPSIZE E + 1) * Encodec.HOPSIZE E)%Z /\
  ((Encodec.HOPSIZE E <= Z.of_nat n)%Z ->
   Encodec.available E (device_of gpu) = true ->
   Encodec.codec_obtainable E = true ->
   (forall t a, exists a', Encodec.kernel E t a = Ok a') ->
   (forall a, exists c,
      Encodec.encode E a = Ok c /\ Encodec.rows_nonempty c = true) ->
   Encodec.consistent s ->
   exists out s',
     Encodec.from_audios E audio lengths sample_rate gpu s = (Ok out, s') /\
     Encodec.frame_count_is (Z.of_nat n / Encodec.HOPSIZE E) out).
Proof.
  intros Hh Hn.
  assert (Hshape : forall buffer out s',
            Encodec.last_dim buffer = Ok n ->
            (buffer = audio \/ buffer = Encodec.unsqueeze0 audio) ->
            Encodec.from_audios E buffer n sample_rate gpu s = (Ok out, s')
            \/ Encodec.from_audios E buffer lengths sample_rate gpu s
               = (Ok out, s') ->
            Encodec.frame_count_is (Z.of_nat n / Encodec.HOPSIZE E) out /\
            (0 < Z.of_nat n / Encodec.HOPSIZE E)%Z /\
            length (Encodec.entries out)
            = Encodec.batch out * Encodec.codebooks out * Encodec.frames out
            /\
            exists buffer t resampled output,
              (buffer = audio \/ buffer = Encodec.unsqueeze0 audio) /\
              Encodec.kernel E t buffer = Ok resampled /\
              Encodec.encode E resampled = Ok output /\
              Encodec.interpolate output (Z.of_nat n / Encodec.HOPSIZE E)
              = Ok out /\
              Encodec.batch out = Encodec.batch output /\
              Encodec.codebooks out = Encodec.codebooks output).
  { intros buffer out s' Hb Hwhich Hrun.
    assert (Hi : exists t resampled output,
               Encodec.kernel E t buffer = Ok resampled /\
               Encodec.encode E resampled = Ok output /\
               Encodec.interpolate output (Z.of_nat n / Encodec.HOPSIZE E)
               = Ok out).
    { destruct Hrun as [Hrun|Hrun];
        exact (proj2 (from_audios_ends_in_interpolate E _ _ _ _ _ Hb Hrun)). }
    destruct Hi as (t & resampled & output & Hk & He & Hi).
    destruct (interpolate_frames _ _ Hi) as (Hf & Hpos & Hbatch & Hbooks & Hlen).
    split; [exact Hf|]. split; [exact Hpos|]. split; [exact Hlen|].
    exists buffer, t, resampled, output. auto 7. }
  split; [|split].
  - intros out s' [H|H].
    + apply (Hshape audio out s' Hn); auto.
    + unfold Encodec.from_audio in H.
      apply bind_inv_ok in H as (n' & s1 & H1 & H).
      apply lift_inv_ok in H1 as [H1 ->].
      destruct (Nat.eqb (length (shape audio)) 2).
      * pose proof (last_dim_unsqueeze0 _ Hn) as Hn'.
        rewrite Hn' in H1. injection H1 as <-.
        apply (Hshape (Encodec.unsqueeze0 audio) out s' Hn'); auto.
      * rewrite Hn in H1. injection H1 as <-.
        apply (Hshape audio out s' Hn); auto.
  - pose proof (Z.div_mod (Z.of_nat n) (Encodec.HOPSIZE E)) as Hdm.
    pose proof (Z.mod_pos_bound (Z.of_nat n) (Encodec.HOPSIZE E) Hh) as Hb.
    lia.
  - intros Hle Hav Hcodec Hker Henc Hcons.
    destruct (from_audios_returns E audio lengths sample_rate gpu Hn
                (conj Hh Hle) Hav Hcodec Hker Henc Hcons)
      as (out & s' & Hrun).
    exists out, s'. split; [exact Hrun|].
    apply (Hshape audio out s' Hn); auto.
Qed.

Lemma encodec_frame_count_witness :
  exists out s',
    Encodec.from_audios Demo.codec_env Demo.second 1600 16000 None
                        Demo.codec_boot = (Ok out, s') /\
    Encodec.frame_count_is 5 out.
Proof.
  refine (proj2 (proj2 (encodec_frame_count
                          Demo.codec_env Demo.second 1600 16000 None
                          Demo.codec_boot (n := 1600) _ _)) _ _ _ _ _ _).
  - reflexivity.
  - reflexivity.
  - discriminate.
  - reflexivity.
  - reflexivity.
  - intros t a. eexists. reflexivity.
  - intros a. eexists. split; reflexivity.
  - intros H. now contradiction H.
Defined.

(** ** The cached resampler *)

Lemma built_cons ev l :
  Encodec.transforms_built (ev :: l) =
  (match ev with Encodec.EvResampleBuilt _ _ _ => 1 | _ => 0 end)
  + Encodec.transforms_built l.
Proof. unfold Encodec.transforms_built. destruct ev; reflexivity. Qed.

Section ResamplerCache.

Import Encodec.

Variable E : Encodec.Env.

(** The cached rate is the rate of the call: nothing happens. *)
Lemma cache_resampler_hit sample_rate d s t :
  resampler_attr s = Some t ->
  sample_rate_attr s = Some sample_rate ->
  cache_resampler E sample_rate d s = (Ok tt, s).
Proof.
  intros Hr Hs. unfold cache_resampler, bind, get, lift, resampler_stale.
  now rewrite Hr, Hs, Z.eqb_refl.
Qed.

(** No transform, or one for another rate: the rate is stored, a
    transform is built, and it is stored when the device is reached. *)
Lemma cache_resampler_miss sample_rate d s r s1 :
  resampler_stale s sample_rate = Ok true ->
  cache_resampler E sample_rate d s = (r, s1) ->
  log s1 = EvResampleBuilt sample_rate 24000 d :: log s /\
  sample_rate_attr s1 = Some sample_rate /\
  (available E d = true ->
   r = Ok tt /\ resampler_attr s1 = Some (mkTransform sample_rate 24000 d)) /\
  (r = Ok tt ->
   resampler_attr s1 = Some (mkTransform sample_rate 24000 d)).
Proof.
  intros Hst. unfold cache_resampler, bind, get, lift. rewrite Hst.
  unfold set_sample_rate, emit, to_device, set_resampler, modify, ret, raise.
  simpl. destruct (available E d); intros [= <- <-]; simpl;
    repeat split; auto; discriminate.
Qed.

(** Caching the codec touches neither the resampler nor its rate. *)
Lemma cache_model_keeps d s r s1 :
  cache_model E d s = (r, s1) ->
  resampler_attr s1 = resampler_attr s /\
  sample_rate_attr s1 = sample_rate_attr s /\
  transforms_built (log s1) = transforms_built (log s) /\
  applied (log s1) = applied (log s).
Proof.
  unfold cache_model, bind, get, emit, set_model, to_device, modify, ret,
    raise.
  destruct (model_attr s); simpl; [now intros [= <- <-]|].
  destruct (codec_obtainable E); simpl; [|now intros [= <- <-]].
  destruct (available E d); simpl; now intros [= <- <-].
Qed.

(** The last block builds nothing, and when it returns it has applied the
    transform it found in the attribute. *)
Lemma encode_and_upsample_applies audio expected_length d s r s1 :
  encode_and_upsample E audio expected_length d s = (r, s1) ->
  resampler_attr s1 = resampler_attr s /\
  sample_rate_attr s1 = sample_rate_attr s /\
  transforms_built (log s1) = transforms_built (log s) /\
  (is_ok r = true ->
   exists t, resampler_attr s = Some t /\
             applied (log s1) = t :: applied (log s)).
Proof.
  unfold encode_and_upsample, bind, get, emit, to_device, modify, lift, ret,
    raise.
  destruct (available E d); simpl;
    [|intros [= <- <-]; repeat split; auto; discriminate].
  destruct (resampler_attr s) as [t|] eqn:Hr; simpl;
    [|intros [= <- <-]; simpl; repeat split; auto; discriminate].
  destruct (kernel E t audio) as [resampled|e]; simpl;
    [|intros [= <- <-]; simpl; repeat split; auto; discriminate].
  destruct (encode E resampled) as [output|e]; simpl;
    intros [= <- <-]; simpl; repeat split; auto; try discriminate.
  intros _. eauto.
Qed.

End ResamplerCache.

(** C8 (as the code has it).  [from_audios] of the EnCodec representation
    keeps the transform it built together with the source rate it built it
    for.  A call with the cached source rate builds nothing, keeps the
    cached transform and, when it returns, has applied that transform.  A
    call that finds no transform, or another source rate, builds a transform
    for its own rate; when the device can be reached that transform replaces
    the cached one, and a call that returns has applied the new transform,
    not the old one.  [resample] of the core module keeps nothing: every
    call whose source rate differs from the target rate builds a transform
    of its own. *)
Theorem resampler_cache_by_source_rate
    (E : Encodec.Env) (C : Core.Env) (audio : tensor) (lengths : nat)
    (sample_rate : Z) (gpu : option Z) (s s' : Encodec.state)
    (r : result Encodec.codes) :
  Encodec.from_audios E audio lengths sample_rate gpu s = (r, s') ->
  (forall t,
     Encodec.resampler_attr s = Some t ->
     Encodec.sample_rate_attr s = Some sample_rate ->
     Encodec.transforms_built (Encodec.log s')
     = Encodec.transforms_built (Encodec.log s) /\
     Encodec.resampler_attr s' = Some t /\
     Encodec.sample_rate_attr s' = Some sample_rate /\
     (is_ok r = true ->
      Encodec.applied (Encodec.log s') = t :: Encodec.applied (Encodec.log s)))
  /\
  (Encodec.resampler_attr s = None \/
   (exists r0, Encodec.sample_rate_attr s = Some r0 /\ r0 <> sample_rate) ->
   is_ok (Encodec.last_dim audio) = true ->
   Encodec.HOPSIZE E <> 0%Z ->
   Encodec.transforms_built (Encodec.log s')
   = S (Encodec.transforms_built (Encodec.log s)) /\
   Encodec.sample_rate_attr s' = Some sample_rate /\
   (Encodec.available E (device_of gpu) = true ->
    Encodec.resampler_attr s'
    = Some (Encodec.mkTransform sample_rate 24000 (device_of gpu))) /\
   (is_ok r = true ->
    Encodec.applied (Encodec.log s')
    = Encodec.mkTransform sample_rate 24000 (device_of gpu)
      :: Encodec.applied (Encodec.log s)))
  /\
  (forall buffer source target cs,
     source <> target ->
     Core.resample C buffer source target cs
     = (resample_kernel C source target buffer,
        logged [Core.EvResampleBuilt source target] cs)).
Proof.
  intros H. split; [|split].
  - intros t Hr Hs. unfold Encodec.from_audios in H.
    apply bind_inv in H as [(n & s1 & H1 & H)|(e & H1 & ->)].
    2:{ injection H1 as _ <-. repeat split; auto; discriminate. }
    injection H1 as _ <-.
    apply bind_inv in H as [(el & s1 & H1 & H)|(e & H1 & ->)].
    2:{ injection H1 as _ <-. repeat split; auto; discriminate. }
    injection H1 as _ <-.
    apply bind_inv in H as [([] & s1 & H1 & H)|(e & H1 & ->)];
      rewrite (cache_resampler_hit E _ _ Hr Hs) in H1; [|discriminate].
    injection H1 as <-.
    apply bind_inv in H as [([] & s2 & H2 & H)|(e & H2 & ->)].
    + apply cache_model_keeps in H2 as (Hr2 & Hs2 & Hb2 & Ha2).
      apply encode_and_upsample_applies in H as (Hr3 & Hs3 & Hb3 & Ha3).
      rewrite Hr3, Hs3, Hb3, Hr2, Hs2, Hb2. repeat split; auto.
      intros Hok. destruct (Ha3 Hok) as (t' & Ht' & Happ).
      rewrite Happ, Ha2. congruence.
    + apply cache_model_keeps in H2 as (Hr2 & Hs2 & Hb2 & Ha2).
      rewrite Hr2, Hs2, Hb2. repeat split; auto. discriminate.
  - intros Hstale Hdim Hhop.
    assert (Hst : Encodec.resampler_stale s sample_rate = Ok true).
    { unfold Encodec.resampler_stale.
      destruct Hstale as [->|(r0 & Hr0 & Hne)]; [reflexivity|].
      rewrite Hr0. destruct (Encodec.resampler_attr s); [|reflexivity].
      apply Z.eqb_neq in Hne. rewrite Z.eqb_sym in Hne. now rewrite Hne. }
    unfold Encodec.from_audios in H.
    destruct (Encodec.last_dim audio) as [n|] eqn:Hn; [|discriminate].
    apply bind_inv in H as [(n' & s1 & H1 & H)|(e & H1 & _)];
      [|discriminate].
    injection H1 as _ <-.
    apply bind_inv in H as [(el & s1 & H1 & H)|(e & H1 & _)].
    2:{ unfold lift, Encodec.floordiv in H1. apply Z.eqb_neq in Hhop.
        rewrite Hhop in H1. discriminate. }
    injection H1 as _ <-.
    apply bind_inv in H as [([] & s1 & H1 & H)|(e & H1 & ->)].
    + destruct (@cache_resampler_miss E _ _ _ _ _ Hst H1)
        as (Hlog & Hrate & _ & Hres). specialize (Hres eq_refl).
      apply bind_inv in H as [([] & s2 & H2 & H)|(e & H2 & ->)].
      * apply cache_model_keeps in H2 as (Hr2 & Hs2 & Hb2 & Ha2).
        apply encode_and_upsample_applies in H as (Hr3 & Hs3 & Hb3 & Ha3).
        rewrite Hr3, Hs3, Hb3, Hr2, Hs2, Hb2, Hlog, built_cons.
        repeat split; auto.
        intros Hok. destruct (Ha3 Hok) as (t' & Ht' & Happ).
        rewrite Happ, Ha2, Hlog. simpl. congruence.
      * apply cache_model_keeps in H2 as (Hr2 & Hs2 & Hb2 & Ha2).
        rewrite Hr2, Hs2, Hb2, Hlog, built_cons.
        repeat split; auto. discriminate.
    + destruct (@cache_resampler_miss E _ _ _ _ _ Hst H1)
        as (Hlog & Hrate & Hav & _).
      rewrite Hlog, built_cons. repeat split; auto.
      * intros Ha. now destruct (Hav Ha).
      * discriminate.
  - intros buffer source target cs Hne. unfold Core.resample.
    apply Z.eqb_neq in Hne. rewrite Hne. reflexivity.
Qed.

Lemma resampler_cache_by_source_rate_witness :
  Encodec.transforms_built
    (Encodec.log (snd (Encodec.from_audios Demo.codec_env Demo.second 1600
                                           16000 None Demo.codec_boot)))
  = 1.
Proof.
  destruct (Encodec.from_audios Demo.codec_env Demo.second 1600 16000 None
                                Demo.codec_boot) as [r s'] eqn:H.
  refine (proj1 (proj1 (proj2 (@resampler_cache_by_source_rate
                                 Demo.codec_env Demo.env _ _ _ _ _ _ _ H))
                       _ _ _)).
  - left. reflexivity.
  - reflexivity.
  - discriminate.
Defined.

(** C8, as stated, fails for [resample]: two calls in a row with the same
    source rate build two transforms. *)
Lemma resample_builds_on_every_call :
  let s1 := snd (Core.resample Demo.env Demo.clip 44100 16000 Demo.boot) in
  let s2 := snd (Core.resample Demo.env Demo.clip 44100 16000 s1) in
  Core.transforms_built (Core.log s1) = 1 /\
  Core.transforms_built (Core.log s2) = 2.
Proof. vm_compute. split; reflexivity. Qed.

(* ================================================================== *)
(** * Further properties of the inference engine *)
(* ================================================================== *)

Lemma constructions_cons ev l :
  constructions (ev :: l) =
  (match ev with EvTorchLoad _ => 1 | _ => 0 end) + constructions l.
Proof. unfold constructions. destruct ev; reflexivity. Qed.

Section EngineFacts.

Variable E : Env.

(** A cache refresh that returns leaves the identity of the call in the
    cache and has loaded a checkpoint when, and only when, it found the
    cache stale. *)
Lemma refresh_cache_ok model checkpoint gpu s s1 :
  refresh_cache E model checkpoint gpu s = (Ok tt, s1) ->
  constructions (log s1) =
    (if stale (attrs s) checkpoint gpu then 1 else 0) + constructions (log s)
  /\ cached_identity (attrs s1) = Some (checkpoint, gpu).
Proof.
  intros H. destruct (stale (attrs s) checkpoint gpu) eqn:Hst.
  - destruct (refresh_cache_miss E model checkpoint gpu s Hst H)
      as (_ & evs & Hlog & Hc & _ & _ & [(e & He & _)|(_ & Ha & _)]);
      [discriminate|].
    rewrite Hlog, Ha, constructions_app, Hc, constructions_cons.
    split; reflexivity.
  - rewrite (refresh_cache_hit E model checkpoint gpu s Hst) in H.
    injection H as <-.
    apply stale_false_iff in Hst as (c & Hc & H1 & H2).
    rewrite Hc. simpl. now subst.
Qed.

(** A cache refresh changes no file and no module but the one it was
    given. *)
Lemma refresh_cache_frame model checkpoint gpu s r s' :
  refresh_cache E model checkpoint gpu s = (r, s') ->
  fs s' = fs s /\
  forall other, other <> resolve_model E model -> heap s' other = heap s other.
Proof.
  unfold refresh_cache, bind at 1, get.
  destruct (stale (attrs s) checkpoint gpu);
    [|intros [= <- <-]; split; auto].
  intros H.
  apply bind_inv in H as [(sd & s1 & H1 & H)|(e & H1 & _)].
  2:{ unfold torch_load, bind, emit, modify, get, lift in H1. simpl in H1.
      destruct (read_checkpoint (fs s) checkpoint); [discriminate|].
      injection H1 as _ <-. split; auto. }
  assert (Hs1 : fs s1 = fs s /\ heap s1 = heap s).
  { unfold torch_load, bind, emit, modify, get, lift in H1. simpl in H1.
    destruct (read_checkpoint (fs s) checkpoint); [|discriminate].
    injection H1 as _ <-. split; reflexivity. }
  destruct Hs1 as [Hfs1 Hheap1].
  assert (Hframe : forall h m other,
             other <> resolve_model E model ->
             heap_set h (resolve_model E model) m other = h other).
  { intros h m other Hne. unfold heap_set.
    destruct (Nat.eqb other (resolve_model E model)) eqn:Heq; [|reflexivity].
    apply Nat.eqb_eq in Heq. contradiction. }
  assert (Happly : forall ra s2,
             apply_checkpoint E (resolve_model E model) sd s1 = (ra, s2) ->
             fs s2 = fs s /\
             forall other, other <> resolve_model E model ->
                           heap s2 other = heap s other).
  { intros ra s2. rewrite apply_checkpoint_unfold. cbv zeta.
    destruct (snd (load_state_dict E (heap s1 (resolve_model E model)) sd))
      as [e1|].
    - destruct (is_RuntimeError e1).
      + destruct (snd (load_state_dict E _ (ddp_to_single_state_dict E sd)));
          intros [= <- <-]; cbn [fs heap]; (split; [exact Hfs1|]);
          intros other Hne; now rewrite !Hframe, Hheap1.
      + intros [= <- <-]. cbn [fs heap]. split; [exact Hfs1|].
        intros other Hne. now rewrite Hframe, Hheap1.
    - intros [= <- <-]. cbn [fs heap]. split; [exact Hfs1|].
      intros other Hne. now rewrite Hframe, Hheap1. }
  apply bind_inv in H as [([] & s2 & H2 & H)|(e & H2 & _)];
    [|now apply Happly in H2].
  apply Happly in H2 as [Hfs2 Hheap2].
  unfold module_to, set_attrs, bind, emit, modify, get, set_heap, ret, raise
    in H. simpl in H.
  destruct (available E (device_of gpu)); injection H as _ <-; cbn [fs heap];
    (split; [exact Hfs2|]); intros other Hne;
    rewrite ?Hframe by exact Hne; now apply Hheap2.
Qed.

(** What [from_audio] does after the cache refresh: it reads the cached
    model and changes nothing but the log. *)
Lemma from_audio_after_refresh audio sample_rate model checkpoint
      representation gpu s r s' :
  from_audio E audio sample_rate model checkpoint representation gpu s
  = (r, s') ->
  (exists e, refresh_cache E model checkpoint gpu s = (Raise e, s') /\
             r = Raise e) \/
  (exists s1,
     refresh_cache E model checkpoint gpu s = (Ok tt, s1) /\
     fs s' = fs s1 /\ heap s' = heap s1 /\ attrs s' = attrs s1 /\
     constructions (log s') = constructions (log s1)).
Proof.
  intros H. unfold from_audio in H.
  apply bind_inv in H as [([] & s1 & H1 & H)|(e & H1 & ->)]; [|eauto].
  right. exists s1. split; [exact H1|].
  unfold bind, emit, modify, lift, cached_model, get, ret, raise in H.
  simpl in H.
  destruct (preprocess E audio representation sample_rate gpu).
  - destruct (attrs s1) eqn:Ha; simpl in H; injection H as _ <-; simpl;
      rewrite ?constructions_cons; auto.
  - injection H as _ <-. simpl. rewrite ?constructions_cons. auto.
Qed.

(** [from_audio] writes no file. *)
Lemma from_audio_keeps_files audio sample_rate model checkpoint
      representation gpu s r s' :
  from_audio E audio sample_rate model checkpoint representation gpu s
  = (r, s') ->
  fs s' = fs s.
Proof.
  intros H.
  apply from_audio_after_refresh in H
    as [(e & H & _)|(s1 & H & Hfs & _)].
  - now apply refresh_cache_frame in H.
  - apply refresh_cache_frame in H as [Hfs1 _]. congruence.
Qed.

End EngineFacts.

(** C9.  In [from_audio] the attributes [model], [checkpoint] and [gpu] are
    assigned only after the checkpoint was loaded and bound and the module
    was placed on the device: a call that changes them has returned from its
    cache refresh, and its last effect before the assignment is the
    placement of the module the checkpoint was bound to.  When the
    construction raises, the attributes are what they were before the call
    (the prior entry, or absent), no file has changed and no module object
    but the one the call was given ([ppgs.MODEL] when it was given none);
    when it was the reading of the checkpoint that raised, no module object
    has changed at all.  [from_audio] raises the same exception, and the
    next call with the same identity, whatever model it is given, finds the
    cache stale and loads the checkpoint again. *)
Theorem failed_construction_keeps_cache
    (E : Env) (model : option ref) (checkpoint : string) (gpu : option Z)
    (s s' : state) (r : result unit) :
  refresh_cache E model checkpoint gpu s = (r, s') ->
  (attrs s' <> attrs s ->
   r = Ok tt /\
   available E (device_of gpu) = true /\
   exists sd evs,
     read_checkpoint (fs s) checkpoint = Ok sd /\
     log s' = EvTo (resolve_model E model) (device_of gpu) :: evs /\
     In (EvLoadStateDict (resolve_model E model) sd) evs) /\
  (forall e, r = Raise e ->
   attrs s' = attrs s /\
   fs s' = fs s /\
   (forall other,
      other <> resolve_model E model -> heap s' other = heap s other) /\
   (forall e0,
      read_checkpoint (fs s) checkpoint = Raise e0 ->
      e = e0 /\ heap s' = heap s) /\
   (forall audio sample_rate representation,
      from_audio E audio sample_rate model checkpoint representation gpu s
      = (Raise e, s')) /\
   stale (attrs s') checkpoint gpu = true /\
   forall model2,
     exists evs,
       log (snd (refresh_cache E model2 checkpoint gpu s'))
       = evs ++ EvTorchLoad checkpoint :: log s').
Proof.
  intros H.
  destruct (refresh_cache_frame E model checkpoint gpu s H) as [Hfs Hframe].
  assert (Hunread : forall e e0,
            r = Raise e ->
            read_checkpoint (fs s) checkpoint = Raise e0 ->
            e = e0 /\ heap s' = heap s).
  { intros e e0 -> Hrd. revert H.
    unfold refresh_cache, bind at 1, get.
    destruct (stale (attrs s) checkpoint gpu); [|intros [=]].
    unfold torch_load, bind, emit, modify, get, lift.
    cbn [fst snd fs]. rewrite Hrd. intros [= <- <-]. split; reflexivity. }
  destruct (stale (attrs s) checkpoint gpu) eqn:Hst.
  - destruct (refresh_cache_miss E model checkpoint gpu s Hst H)
      as (_ & evs & Hlog & _ & _ & _ & Hcases).
    split.
    + intros Hch.
      destruct Hcases as [(e & _ & Ha)|(Hr & _ & Hav & _ & sd & evs' & Hsd & Hev & Hin)];
        [contradiction|].
      repeat split; auto. exists sd, (evs' ++ EvTorchLoad checkpoint :: log s).
      rewrite Hlog, Hev. repeat split; auto.
      apply in_or_app. now left.
    + intros e He.
      destruct Hcases as [(e' & He' & Ha)|(Hr & _)]; [|congruence].
      assert (e' = e) by congruence. subst e'.
      assert (Hst' : stale (attrs s') checkpoint gpu = true) by now rewrite Ha.
      split; [exact Ha|]. split; [exact Hfs|]. split; [exact Hframe|].
      split; [intros e0; now apply Hunread|].
      subst r. split; [|split; [exact Hst'|]].
      * intros. unfold from_audio. now apply bind_raise.
      * intros model2.
        destruct (refresh_cache E model2 checkpoint gpu s') as [r2 s2] eqn:H2.
        destruct (refresh_cache_miss E model2 checkpoint gpu s' Hst' H2)
          as (_ & evs2 & Hlog2 & _).
        exists evs2. exact Hlog2.
  - rewrite (refresh_cache_hit E model checkpoint gpu s Hst) in H.
    injection H as <- <-. split; [intros Hch; now contradiction Hch|].
    intros e [=].
Qed.

Lemma failed_construction_keeps_cache_witness :
  attrs (snd (refresh_cache Demo.env None "missing.pt" None Demo.warm))
  = attrs Demo.warm.
Proof.
  destruct (refresh_cache Demo.env None "missing.pt" None Demo.warm)
    as [r s'] eqn:H.
  destruct r as [u|e]; [vm_compute in H; discriminate|].
  exact (proj1 (proj2 (failed_construction_keeps_cache _ _ _ _ _ H) e eq_refl)).
Defined.

(** C9, as stated, fails: the attributes hold a reference, and the
    checkpoint is bound to the module in place before the module is placed.
    The cache holds module [0], [ppgs.MODEL], for [single.pt] on the cpu.
    A call for [ddp.pt] on an accelerator that is not there is given no
    model, so it binds [ppgs.MODEL], the cached object itself, and then
    fails to place it: the call raises, the attributes are what they were,
    and the module of the prior entry holds the parameters of [ddp.pt]. *)
Remark failed_placement_leaves_module_rebound :
  let run := refresh_cache Demo.env None "ddp.pt" (Some 5%Z) Demo.warm in
  attrs Demo.warm = Some (mkCache 0 "single.pt" None) /\
  is_ok (fst run) = false /\
  attrs (snd run) = attrs Demo.warm /\
  params (heap Demo.warm 0) = [("w"%string, mkTensor [2] [1; 2]%Z)] /\
  params (heap (snd run) 0) = [("w"%string, mkTensor [2] [3; 4]%Z)] /\
  heap (snd run) 0 <> heap Demo.warm 0.
Proof. vm_compute. repeat split. discriminate. Qed.


(** X1.  Whatever a call of [from_audio] returns or raises, it changes no
    file, and the only module it can change is the one it was given (the
    default one when none was given). *)
Theorem from_audio_touches_only_its_model
    (E : Env) (audio : tensor) (sample_rate : Z) (model : option ref)
    (checkpoint representation : string) (gpu : option Z)
    (s s' : state) (r : result tensor) :
  from_audio E audio sample_rate model checkpoint representation gpu s
  = (r, s') ->
  fs s' = fs s /\
  forall other, other <> resolve_model E model -> heap s' other = heap s other.
Proof.
  intros H.
  apply from_audio_after_refresh in H
    as [(e & H & _)|(s1 & H & Hfs & Hheap & _)].
  - now apply refresh_cache_frame in H.
  - apply refresh_cache_frame in H as [Hfs1 Hheap1].
    rewrite Hfs, Hheap. auto.
Qed.

Lemma from_audio_touches_only_its_model_witness :
  heap (snd (from_audio Demo.env Demo.clip 16000 (Some 3) "ddp.pt" "w2v2fb"
                        None Demo.warm)) 0
  = heap Demo.warm 0.
Proof.
  destruct (from_audio Demo.env Demo.clip 16000 (Some 3) "ddp.pt" "w2v2fb"
                       None Demo.warm) as [r s'] eqn:H.
  apply (proj2 (@from_audio_touches_only_its_model _ _ _ _ _ _ _ _ _ _ H)).
  discriminate.
Defined.

(** A run of calls with the identity that is cached loads nothing and
    leaves the attributes alone. *)
Lemma after_calls_quiet (E : Env) checkpoint gpu requests : forall s,
  stale (attrs s) checkpoint gpu = false ->
  attrs (Sessions.after_calls E checkpoint gpu requests s) = attrs s /\
  constructions (log (Sessions.after_calls E checkpoint gpu requests s))
  = constructions (log s).
Proof.
  induction requests as [|q rest IH]; intros s Hst; [auto|].
  cbn [Sessions.after_calls].
  destruct (from_audio E (Sessions.r_audio q) (Sessions.r_sample_rate q)
                       (Sessions.r_model q) checkpoint
                       (Sessions.r_representation q) gpu s)
    as [r2 s2] eqn:H2.
  apply from_audio_after_refresh in H2
    as [(e & H2 & _)|(s3 & H2 & _ & _ & Ha & Hc)];
    rewrite (refresh_cache_hit E (Sessions.r_model q) checkpoint gpu s Hst)
      in H2; [discriminate|].
  injection H2 as <-. cbn [snd].
  assert (Hst2 : stale (attrs s2) checkpoint gpu = false) by now rewrite Ha.
  destruct (IH s2 Hst2) as [Ha' Hc']. rewrite Ha', Hc'. auto.
Qed.

(** X2.  Once the cache refresh of a [from_audio] call has returned, the
    model stays cached under the identity of the call even when the
    preprocessing or the forward pass then raises.  After any run of later
    calls with that checkpoint and gpu, whatever model, audio or
    representation they are given and whether they return or raise, no
    checkpoint has been loaded again and the attributes are what that call
    left.  (A call with another checkpoint or gpu in between replaces the
    cache; the run has none.) *)
Theorem cached_model_survives_later_failure
    (E : Env) (audio : tensor) (sample_rate : Z) (model : option ref)
    (checkpoint representation : string) (gpu : option Z)
    (s s1 s' : state) (r : result tensor) :
  from_audio E audio sample_rate model checkpoint representation gpu s
  = (r, s') ->
  refresh_cache E model checkpoint gpu s = (Ok tt, s1) ->
  cached_identity (attrs s') = Some (checkpoint, gpu) /\
  forall requests,
    attrs (Sessions.after_calls E checkpoint gpu requests s') = attrs s' /\
    constructions
      (log (Sessions.after_calls E checkpoint gpu requests s'))
    = constructions (log s').
Proof.
  intros H Hr.
  apply from_audio_after_refresh in H
    as [(e & H & _)|(s1' & H & _ & _ & Ha & _)]; [congruence|].
  rewrite Hr in H. injection H as <-.
  apply refresh_cache_ok in Hr as [_ Hid]. rewrite <- Ha in Hid.
  split; [exact Hid|].
  intros requests.
  assert (Hst : stale (attrs s') checkpoint gpu = false).
  { apply stale_false_iff. destruct (attrs s') as [c|]; [|discriminate].
    injection Hid as H1 H2. eauto. }
  exact (after_calls_quiet E checkpoint gpu requests s' Hst).
Qed.

Lemma cached_model_survives_later_failure_witness :
  cached_identity
    (attrs (snd (from_audio Demo.env Demo.clip 16000 None "single.pt"
                            "w2v2fb" None Demo.boot)))
  = Some ("single.pt"%string, None).
Proof.
  destruct (from_audio Demo.env Demo.clip 16000 None "single.pt" "w2v2fb"
                       None Demo.boot) as [r s'] eqn:H.
  destruct (refresh_cache Demo.env None "single.pt" None Demo.boot)
    as [[[]|e] s1] eqn:Hr; [|vm_compute in Hr; discriminate].
  exact (proj1 (@cached_model_survives_later_failure
                  _ _ _ _ _ _ _ _ _ _ _ H Hr)).
Defined.

Section BatchLoads.

Variable E : Env.

(** One pair that is processed to the end: what it loads, what it leaves
    in the cache. *)
Lemma from_file_to_file_ok audio_file output_file checkpoint gpu s s' :
  from_file_to_file E audio_file output_file checkpoint gpu s = (Ok tt, s') ->
  constructions (log s') =
    (if stale (attrs s) checkpoint gpu then 1 else 0) + constructions (log s)
  /\ stale (attrs s') checkpoint gpu = false.
Proof.
  intros H. unfold from_file_to_file in H.
  apply bind_inv_ok in H as (t & s3 & H & Hsave).
  unfold from_file in H.
  apply bind_inv_ok in H as ([] & s0 & H0 & H). injection H0 as <-.
  apply bind_inv_ok in H as (s0' & s0'' & H0 & H). injection H0 as <- <-.
  apply bind_inv_ok in H as (audio & s0' & H0 & H).
  apply lift_inv_ok in H0 as [_ ->].
  apply bind_inv_ok in H as ([] & s0' & H0 & H). injection H0 as <-.
  apply from_audio_after_refresh in H
    as [(e & _ & He)|(s1 & Hr & _ & _ & Ha & Hc)]; [discriminate|].
  apply refresh_cache_ok in Hr as [Hc1 Hid]. cbn [attrs log] in Hc1.
  rewrite !constructions_cons in Hc1. simpl in Hc1.
  unfold torch_save, bind, emit, modify, set_file, raise in Hsave.
  simpl in Hsave.
  destruct (writable E output_file); [|discriminate].
  injection Hsave as <-. cbn [log attrs].
  rewrite constructions_cons, Hc, Hc1, Ha. split; [reflexivity|].
  apply stale_false_iff. destruct (attrs s1) as [c|]; [|discriminate].
  injection Hid as H1 H2. eauto.
Qed.

Lemma batch_ok checkpoint gpu (pairs : list (Pathlib.Path * Pathlib.Path))
      s s' :
  for_each (fun '(audio_file, output_file) =>
              from_file_to_file E audio_file output_file checkpoint gpu)
           pairs s = (Ok tt, s') ->
  pairs <> [] ->
  constructions (log s') =
    (if stale (attrs s) checkpoint gpu then 1 else 0) + constructions (log s)
  /\ stale (attrs s') checkpoint gpu = false.
Proof.
  revert s. induction pairs as [|[a o] pairs IH]; intros s H Hne;
    [congruence|].
  cbn [for_each] in H. apply bind_inv_ok in H as ([] & s1 & H1 & H).
  apply from_file_to_file_ok in H1 as [Hc1 Hst1].
  destruct pairs as [|p pairs].
  - injection H as <-. auto.
  - apply IH in H as [Hc Hst]; [|discriminate].
    rewrite Hst1 in Hc. rewrite Hc, Hc1. auto.
Qed.

End BatchLoads.

(** X3.  A batch that runs to the end loads the checkpoint at most once,
    however many files it processes: once when it starts with a stale
    cache, not at all when the model for its checkpoint and gpu is cached
    already; afterwards that model is cached. *)
Theorem batch_loads_checkpoint_once
    (E : Env) (audio_files output_files : list Pathlib.Path)
    (checkpoint : string) (gpu : option Z) (s s' : state) :
  from_files_to_files E audio_files (Some output_files) checkpoint gpu s
  = (Ok tt, s') ->
  audio_files <> [] -> output_files <> [] ->
  constructions (log s') =
    (if stale (attrs s) checkpoint gpu then 1 else 0) + constructions (log s)
  /\ stale (attrs s') checkpoint gpu = false.
Proof.
  unfold from_files_to_files. unfold bind at 1, ret at 1.
  intros H Hi Ho. apply batch_ok in H; [exact H|].
  destruct audio_files, output_files; try congruence. discriminate.
Qed.

Lemma batch_loads_checkpoint_once_witness :
  constructions
    (log (snd (from_files_to_files
                 Demo.env [Demo.a_wav; Demo.b_wav] (Some [Demo.a_pt; Demo.a_pt])
                 "single.pt" None Demo.boot)))
  = 1.
Proof.
  destruct (from_files_to_files
              Demo.env [Demo.a_wav; Demo.b_wav] (Some [Demo.a_pt; Demo.a_pt])
              "single.pt" None Demo.boot) as [[[]|e] s'] eqn:H;
    [|vm_compute in H; discriminate].
  refine (proj1 (@batch_loads_checkpoint_once _ _ _ _ _ _ _ H _ _));
    discriminate.
Defined.

(** X4.  [from_file_to_file] can change no file but the output file.  When
    it returns, the output file holds the tensor that [from_file] computed;
    when the inference raises, the same exception is raised and the file
    system is as it was: nothing is written. *)
Theorem from_file_to_file_writes_only_output
    (E : Env) (audio_file output_file : Pathlib.Path) (checkpoint : string)
    (gpu : option Z) (s s' : state) (r : result unit) :
  from_file_to_file E audio_file output_file checkpoint gpu s = (r, s') ->
  (forall q, q <> path_str E output_file -> fs s' q = fs s q) /\
  (r = Ok tt ->
   exists t s1,
     from_file E audio_file checkpoint gpu s = (Ok t, s1) /\
     fs s' (path_str E output_file) = Some (FTensor t)) /\
  (forall e s1,
     from_file E audio_file checkpoint gpu s = (Raise e, s1) ->
     r = Raise e /\ s' = s1 /\ fs s' = fs s /\ saved (log s') = saved (log s)).
Proof.
  intros H.
  assert (Hfile : forall rf s1,
             from_file E audio_file checkpoint gpu s = (rf, s1) ->
             fs s1 = fs s /\ saved (log s1) = saved (log s)).
  { intros rf s1 Hf. split; [|now apply from_file_trace in Hf].
    unfold from_file in Hf.
    apply bind_inv in Hf as [([] & s0 & H0 & Hf)|(e & H0 & _)];
      [|discriminate].
    injection H0 as <-.
    apply bind_inv in Hf as [(s0' & s0'' & H0 & Hf)|(e & H0 & _)];
      [|discriminate].
    injection H0 as <- <-.
    apply bind_inv in Hf as [(audio & s0' & H0 & Hf)|(e & H0 & _)].
    2:{ unfold lift in H0. now injection H0 as _ <-. }
    unfold lift in H0. injection H0 as _ <-.
    apply bind_inv in Hf as [([] & s0' & H0 & Hf)|(e & H0 & _)];
      [|discriminate].
    injection H0 as <-.
    now apply from_audio_keeps_files in Hf. }
  unfold from_file_to_file in H.
  apply bind_inv in H as [(t & s1 & H1 & H2)|(e & H1 & ->)].
  - destruct (Hfile _ _ H1) as [Hfs _].
    unfold torch_save, bind, emit, modify, set_file, raise in H2.
    simpl in H2.
    destruct (writable E output_file); injection H2 as <- <-; cbn [fs].
    + split; [|split].
      * intros q Hq. rewrite Hfs.
        destruct (String.eqb q (path_str E output_file)) eqn:Heq;
          [|reflexivity].
        apply String.eqb_eq in Heq. contradiction.
      * intros _. exists t, s1. split; [exact H1|].
        now rewrite String.eqb_refl.
      * intros e s2 Hf. rewrite H1 in Hf. discriminate.
    + split; [|split].
      * intros q _. now rewrite Hfs.
      * discriminate.
      * intros e s2 Hf. rewrite H1 in Hf. discriminate.
  - destruct (Hfile _ _ H1) as [Hfs Hsv]. split; [|split].
    + intros q _. now rewrite Hfs.
    + discriminate.
    + intros e' s1 Hf. rewrite H1 in Hf. injection Hf as <- <-. auto.
Qed.

Lemma from_file_to_file_writes_only_output_witness :
  fs (snd (from_file_to_file Demo.env Demo.a_wav Demo.a_pt "single.pt" None
                             Demo.boot)) "b.wav"%string
  = fs Demo.boot "b.wav"%string.
Proof.
  destruct (from_file_to_file Demo.env Demo.a_wav Demo.a_pt "single.pt" None
                              Demo.boot) as [r s'] eqn:H.
  apply (proj1 (@from_file_to_file_writes_only_output _ _ _ _ _ _ _ _ H)).
  discriminate.
Defined.

Section DefaultOutputErrors.

Import Pathlib.

Lemma with_suffix_pt_cases p :
  (name p = EmptyString -> with_suffix p ".pt" = Raise ValueError) /\
  (name p <> EmptyString -> exists q, with_suffix p ".pt" = Ok q).
Proof.
  split.
  - intros Hn. unfold with_suffix. rewrite Hn. reflexivity.
  - intros Hn. destruct (@with_suffix_pt p Hn) as (q & Hq & _). eauto.
Qed.

Lemma default_outputs_raise (audio_files : list Path) :
  Exists (fun p => name p = EmptyString) audio_files ->
  map_result (fun file => with_suffix file ".pt") audio_files
  = Raise ValueError.
Proof.
  induction audio_files as [|p ps IH]; intros Hex; [inversion Hex|].
  simpl. destruct (String.eqb (name p) EmptyString) eqn:Hn.
  - apply String.eqb_eq in Hn.
    now rewrite (proj1 (with_suffix_pt_cases p) Hn).
  - apply String.eqb_neq in Hn.
    destruct (proj2 (with_suffix_pt_cases p) Hn) as [q ->].
    rewrite IH; [reflexivity|].
    inversion Hex; subst; [contradiction | assumption].
Qed.

End DefaultOutputErrors.

(** X5.  With [output_files] omitted, an input path without a final
    component makes [from_files_to_files] raise [ValueError] while the
    default outputs are computed, before any work: no audio file is read,
    no checkpoint loaded, nothing written, also for the well-formed inputs
    that come before it in the list. *)
Theorem default_outputs_fail_before_any_work
    (E : Env) (audio_files : list Pathlib.Path) (checkpoint : string)
    (gpu : option Z) (s : state) :
  Exists (fun p => Pathlib.name p = EmptyString) audio_files ->
  from_files_to_files E audio_files None checkpoint gpu s
  = (Raise Pathlib.ValueError, s).
Proof.
  intros Hex. unfold from_files_to_files, bind, lift.
  now rewrite default_outputs_raise.
Qed.

Lemma default_outputs_fail_before_any_work_witness :
  from_files_to_files Demo.env [Demo.a_wav; Pathlib.mkPath "/" []] None
                      "single.pt" None Demo.boot
  = (Raise Pathlib.ValueError, Demo.boot).
Proof.
  apply default_outputs_fail_before_any_work.
  apply Exists_cons_tl, Exists_cons_hd. reflexivity.
Defined.

(* ================================================================== *)
(** * Further properties of the EnCodec representation *)
(* ================================================================== *)

Lemma codec_events_cons ev l :
  CodecLog.codec_events (ev :: l) =
  (match ev with
   | Encodec.EvCodecBuilt => 1
   | Encodec.EvCodecTo _ => 1
   | _ => 0
   end) + CodecLog.codec_events l.
Proof. unfold CodecLog.codec_events. destruct ev; reflexivity. Qed.

Section CodecFacts.

Import Encodec.

Variable E : Encodec.Env.

(** The last block touches neither the codec nor the log of its
    construction. *)
Lemma encode_and_upsample_keeps_codec audio expected_length d s r s1 :
  encode_and_upsample E audio expected_length d s = (r, s1) ->
  model_attr s1 = model_attr s /\
  CodecLog.codec_events (log s1) = CodecLog.codec_events (log s).
Proof.
  unfold encode_and_upsample, bind, get, emit, to_device, modify, lift, ret,
    raise.
  destruct (available E d); simpl; [|now intros [= <- <-]].
  destruct (resampler_attr s) as [t|]; simpl; [|now intros [= <- <-]].
  destruct (kernel E t audio) as [resampled|e]; simpl;
    [|now intros [= <- <-]].
  destruct (encode E resampled); simpl; now intros [= <- <-].
Qed.

(** With a codec in the attribute, the block that caches it does nothing. *)
Lemma cache_model_hit d d0 s :
  model_attr s = Some d0 -> cache_model E d s = (Ok tt, s).
Proof. intros H. unfold cache_model, bind, get. now rewrite H. Qed.

(** A call with the cached rate, spelled out block by block. *)
Lemma from_audios_same_rate audio lengths sample_rate gpu s r s' t :
  resampler_attr s = Some t ->
  sample_rate_attr s = Some sample_rate ->
  from_audios E audio lengths sample_rate gpu s = (r, s') ->
  transforms_built (log s') = transforms_built (log s) /\
  resampler_attr s' = Some t /\
  (is_ok r = true -> applied (log s') = t :: applied (log s)).
Proof.
  intros Hr Hs H. unfold from_audios in H.
  apply bind_inv in H as [(n & s1 & H1 & H)|(e & H1 & ->)].
  2:{ injection H1 as _ <-. repeat split; auto; discriminate. }
  injection H1 as _ <-.
  apply bind_inv in H as [(el & s1 & H1 & H)|(e & H1 & ->)].
  2:{ injection H1 as _ <-. repeat split; auto; discriminate. }
  injection H1 as _ <-.
  apply bind_inv in H as [([] & s1 & H1 & H)|(e & H1 & ->)];
    rewrite (cache_resampler_hit E _ _ Hr Hs) in H1; [|discriminate].
  injection H1 as <-.
  apply bind_inv in H as [([] & s2 & H2 & H)|(e & H2 & ->)].
  - apply cache_model_keeps in H2 as (Hr2 & Hs2 & Hb2 & Ha2).
    apply encode_and_upsample_applies in H as (Hr3 & Hs3 & Hb3 & Ha3).
    rewrite Hr3, Hb3, Hr2, Hb2. repeat split; auto.
    intros Hok. destruct (Ha3 Hok) as (t' & Ht' & Happ).
    rewrite Happ, Ha2. congruence.
  - apply cache_model_keeps in H2 as (Hr2 & Hs2 & Hb2 & Ha2).
    rewrite Hr2, Hb2. repeat split; auto. discriminate.
Qed.

(** Such a call leaves the stored rate as it is. *)
Lemma from_audios_keeps_rate audio lengths sample_rate gpu s r s' t :
  resampler_attr s = Some t ->
  sample_rate_attr s = Some sample_rate ->
  from_audios E audio lengths sample_rate gpu s = (r, s') ->
  sample_rate_attr s' = Some sample_rate.
Proof.
  intros Hr Hs H. unfold from_audios in H.
  apply bind_inv in H as [(n & s1 & H1 & H)|(e & H1 & ->)].
  2:{ now injection H1 as _ <-. }
  injection H1 as _ <-.
  apply bind_inv in H as [(el & s1 & H1 & H)|(e & H1 & ->)].
  2:{ now injection H1 as _ <-. }
  injection H1 as _ <-.
  apply bind_inv in H as [([] & s1 & H1 & H)|(e & H1 & ->)];
    rewrite (cache_resampler_hit E _ _ Hr Hs) in H1; [|discriminate].
  injection H1 as <-.
  apply bind_inv in H as [([] & s2 & H2 & H)|(e & H2 & ->)].
  - apply cache_model_keeps in H2 as (_ & Hs2 & _).
    apply encode_and_upsample_applies in H as (_ & Hs3 & _).
    congruence.
  - apply cache_model_keeps in H2 as (_ & Hs2 & _). congruence.
Qed.

(** A run of calls with the stored rate builds no transform and leaves the
    rate and the transform as they are. *)
Lemma after_audios_keeps sample_rate t requests : forall s,
  resampler_attr s = Some t ->
  sample_rate_attr s = Some sample_rate ->
  transforms_built (log (Sessions.after_audios E sample_rate requests s))
  = transforms_built (log s) /\
  resampler_attr (Sessions.after_audios E sample_rate requests s) = Some t /\
  sample_rate_attr (Sessions.after_audios E sample_rate requests s)
  = Some sample_rate.
Proof.
  induction requests as [|q rest IH]; intros s Hr Hs; [auto|].
  cbn [Sessions.after_audios].
  destruct (from_audios E (Sessions.c_audio q) (Sessions.c_lengths q)
                        sample_rate (Sessions.c_gpu q) s) as [r2 s2] eqn:H2.
  cbn [snd].
  destruct (from_audios_same_rate _ _ _ _ Hr Hs H2) as (Hb2 & Hr2 & _).
  pose proof (from_audios_keeps_rate _ _ _ _ Hr Hs H2) as Hs2.
  destruct (IH s2 Hr2 Hs2) as (Hb' & Hr' & Hs').
  rewrite Hb', Hb2. auto.
Qed.

End CodecFacts.

(** X6.  [from_audios] stores the new source rate before it builds the
    transform.  When the cached transform was built for another rate and
    the build for the new rate fails on its way to a device that cannot be
    reached, the call raises and leaves the new rate stored beside the old
    transform.  After any run of later calls with that rate, whatever else
    they are given and whether they return or raise, no transform has been
    built and the old transform is still the one stored for that rate; and
    a call with that rate then builds nothing either, keeps the old
    transform, and applies it when it returns.  (A call with another rate
    in between builds a transform of its own; the run has none.) *)
Theorem failed_build_leaves_old_transform
    (E : Encodec.Env) (audio : tensor) (lengths : nat) (rate : Z)
    (gpu : option Z) (s s1 : Encodec.state) (res : result Encodec.codes)
    (old : Encodec.transform) (old_rate : Z) :
  Encodec.resampler_attr s = Some old ->
  Encodec.sample_rate_attr s = Some old_rate ->
  old_rate <> rate ->
  is_ok (Encodec.last_dim audio) = true ->
  Encodec.HOPSIZE E <> 0%Z ->
  Encodec.available E (device_of gpu) = false ->
  Encodec.from_audios E audio lengths rate gpu s = (res, s1) ->
  is_ok res = false /\
  Encodec.sample_rate_attr s1 = Some rate /\
  Encodec.resampler_attr s1 = Some old /\
  forall requests,
    Encodec.transforms_built
      (Encodec.log (Sessions.after_audios E rate requests s1))
    = Encodec.transforms_built (Encodec.log s1) /\
    Encodec.sample_rate_attr (Sessions.after_audios E rate requests s1)
    = Some rate /\
    Encodec.resampler_attr (Sessions.after_audios E rate requests s1)
    = Some old /\
    forall audio2 lengths2 gpu2 res2 s2,
      Encodec.from_audios E audio2 lengths2 rate gpu2
                          (Sessions.after_audios E rate requests s1)
      = (res2, s2) ->
      Encodec.transforms_built (Encodec.log s2)
      = Encodec.transforms_built (Encodec.log s1) /\
      Encodec.resampler_attr s2 = Some old /\
      (is_ok res2 = true ->
       Encodec.applied (Encodec.log s2)
       = old :: Encodec.applied
                  (Encodec.log (Sessions.after_audios E rate requests s1))).
Proof.
  intros Hr Hs Hne Hdim Hhop Hav H.
  assert (Hfirst : is_ok res = false /\
                   Encodec.sample_rate_attr s1 = Some rate /\
                   Encodec.resampler_attr s1 = Some old).
  { unfold Encodec.from_audios, Encodec.cache_resampler, bind, lift, get,
      Encodec.floordiv, Encodec.resampler_stale in H.
    destruct (Encodec.last_dim audio) as [n|]; [|discriminate].
    apply Z.eqb_neq in Hhop. rewrite Hhop, Hr, Hs in H.
    assert (Hz : Z.eqb rate old_rate = false)
      by (apply Z.eqb_neq; congruence).
    rewrite Hz in H.
    unfold Encodec.set_sample_rate, Encodec.emit, Encodec.to_device, modify,
      raise in H.
    simpl in H. rewrite Hav in H. simpl in H.
    injection H as <- <-. simpl. auto. }
  destruct Hfirst as (Hres & Hs1 & Hr1).
  split; [exact Hres|]. split; [exact Hs1|]. split; [exact Hr1|].
  intros requests.
  destruct (@after_audios_keeps E rate old requests s1 Hr1 Hs1)
    as (Hb & Hr2 & Hs2).
  split; [exact Hb|]. split; [exact Hs2|]. split; [exact Hr2|].
  intros audio2 lengths2 gpu2 res2 s2 H2.
  destruct (from_audios_same_rate E _ _ _ _ Hr2 Hs2 H2) as (Hb3 & Hr3 & Ha3).
  split; [now rewrite Hb3|]. split; [exact Hr3|exact Ha3].
Qed.

Lemma failed_build_leaves_old_transform_witness :
  Encodec.resampler_attr
    (snd (Encodec.from_audios Demo.codec_env Demo.second 1600 16000
                              (Some 5%Z) Samples.after_cd))
  = Some Samples.cd_transform.
Proof.
  destruct (Encodec.from_audios Demo.codec_env Demo.second 1600 16000
                                (Some 5%Z) Samples.after_cd)
    as [res s1] eqn:H.
  refine (proj1 (proj2 (proj2 (@failed_build_leaves_old_transform
                                 _ _ _ _ _ _ _ _ Samples.cd_transform 44100%Z
                                 _ _ _ _ _ _ H)))).
  - reflexivity.
  - reflexivity.
  - discriminate.
  - reflexivity.
  - discriminate.
  - reflexivity.
Defined.

(** X7.  The codec of [from_audios] is built once.  With a codec in the
    attribute and the transform cached for the rate of the call, a call
    neither builds nor moves the codec and keeps the cached transform,
    whatever gpu it is given: a call for another device leaves both on the
    device of the call that built them. *)
Theorem codec_and_transform_stay_on_first_device
    (E : Encodec.Env) (audio : tensor) (lengths : nat) (sample_rate : Z)
    (gpu : option Z) (s s' : Encodec.state) (r : result Encodec.codes)
    (d : device) (t : Encodec.transform) :
  Encodec.model_attr s = Some d ->
  Encodec.resampler_attr s = Some t ->
  Encodec.sample_rate_attr s = Some sample_rate ->
  Encodec.from_audios E audio lengths sample_rate gpu s = (r, s') ->
  Encodec.model_attr s' = Some d /\
  Encodec.resampler_attr s' = Some t /\
  CodecLog.codec_events (Encodec.log s')
  = CodecLog.codec_events (Encodec.log s) /\
  Encodec.transforms_built (Encodec.log s')
  = Encodec.transforms_built (Encodec.log s).
Proof.
  intros Hm Hr Hs H.
  destruct (from_audios_same_rate E _ _ _ _ Hr Hs H) as (Hb & Hr' & _).
  split; [|split; [exact Hr'|split; [|exact Hb]]].
  - unfold Encodec.from_audios in H.
    apply bind_inv in H as [(n & s1 & H1 & H)|(e & H1 & _)].
    2:{ now injection H1 as _ <-. }
    injection H1 as _ <-.
    apply bind_inv in H as [(el & s1 & H1 & H)|(e & H1 & _)].
    2:{ now injection H1 as _ <-. }
    injection H1 as _ <-.
    apply bind_inv in H as [([] & s1 & H1 & H)|(e & H1 & _)];
      rewrite (cache_resampler_hit E _ _ Hr Hs) in H1; [|discriminate].
    injection H1 as <-.
    apply bind_inv in H as [([] & s2 & H2 & H)|(e & H2 & _)];
      rewrite (cache_model_hit E _ _ Hm) in H2; [|discriminate].
    injection H2 as <-.
    apply encode_and_upsample_keeps_codec in H as [Hm' _]. congruence.
  - unfold Encodec.from_audios in H.
    apply bind_inv in H as [(n & s1 & H1 & H)|(e & H1 & _)].
    2:{ now injection H1 as _ <-. }
    injection H1 as _ <-.
    apply bind_inv in H as [(el & s1 & H1 & H)|(e & H1 & _)].
    2:{ now injection H1 as _ <-. }
    injection H1 as _ <-.
    apply bind_inv in H as [([] & s1 & H1 & H)|(e & H1 & _)];
      rewrite (cache_resampler_hit E _ _ Hr Hs) in H1; [|discriminate].
    injection H1 as <-.
    apply bind_inv in H as [([] & s2 & H2 & H)|(e & H2 & _)];
      rewrite (cache_model_hit E _ _ Hm) in H2; [|discriminate].
    injection H2 as <-.
    now apply encode_and_upsample_keeps_codec in H as [_ Hc].
Qed.

Lemma codec_and_transform_stay_on_first_device_witness :
  Encodec.model_attr
    (snd (Encodec.from_audios Demo.codec_env Demo.second 1600 44100
                              (Some 0%Z) Samples.after_cd))
  = Some Cpu.
Proof.
  destruct (Encodec.from_audios Demo.codec_env Demo.second 1600 44100
                                (Some 0%Z) Samples.after_cd)
    as [r s'] eqn:H.
  refine (proj1 (@codec_and_transform_stay_on_first_device
                   _ _ _ _ _ _ _ _ Cpu Samples.cd_transform _ _ _ H));
    reflexivity.
Defined.

(* ================================================================== *)
(** * Properties of the phoneme model on EnCodec features *)
(* ================================================================== *)

Lemma loads_cons ev l :
  Features.loads (ev :: l) =
  (match ev with Features.EvTorchLoad _ => 1 | _ => 0 end) + Features.loads l.
Proof. unfold Features.loads. destruct ev; reflexivity. Qed.

Section FeaturesFacts.

Import Features.

Variable E : Features.Env.

(** A call that finds a model in the attribute: it loads nothing and
    leaves the attributes alone, and without a front end in the attribute
    it raises at once. *)
Lemma from_features_with_model features d new_lengths checkpoint gpu s m r s' :
  model_attr s = Some m ->
  from_features E features d new_lengths checkpoint gpu s = (r, s') ->
  loads (log s') = loads (log s) /\
  model_attr s' = Some m /\
  frontend_attr s' = frontend_attr s /\
  (frontend_attr s = None -> r = Raise AttributeError /\ s' = s).
Proof.
  intros Hm. unfold from_features, the_model, the_frontend, bind, get, emit,
    modify, lift, ret, raise. rewrite Hm. simpl. rewrite Hm.
  destruct (frontend_attr s) as [f|] eqn:Hf; simpl.
  - destruct (run_frontend E f _) as [x|e]; simpl;
      intros [= <- <-]; simpl; rewrite ?loads_cons; repeat split; auto;
      discriminate.
  - intros [= <- <-]. repeat split; auto.
Qed.

(** With a model in the attribute, neither the checkpoint nor the gpu is
    looked at. *)
Lemma from_features_ignores_arguments features d new_lengths checkpoint
      checkpoint' gpu gpu' s m :
  model_attr s = Some m ->
  from_features E features d new_lengths checkpoint gpu s
  = from_features E features d new_lengths checkpoint' gpu' s.
Proof.
  intros Hm. unfold from_features, bind, get. now rewrite Hm.
Qed.

(** A run of calls from a process with a model in the attribute loads
    nothing and leaves both attributes alone. *)
Lemma after_features_keeps requests : forall s m,
  model_attr s = Some m ->
  loads (log (Sessions.after_features E requests s)) = loads (log s) /\
  model_attr (Sessions.after_features E requests s) = Some m /\
  frontend_attr (Sessions.after_features E requests s) = frontend_attr s.
Proof.
  induction requests as [|q rest IH]; intros s m Hm; [auto|].
  cbn [Sessions.after_features].
  destruct (from_features E (Sessions.f_features q) (Sessions.f_device q)
                          (Sessions.f_new_lengths q)
                          (Sessions.f_checkpoint q) (Sessions.f_gpu q) s)
    as [r s2] eqn:H2.
  destruct (@from_features_with_model _ _ _ _ _ _ _ _ _ Hm H2)
    as (Hl & Hm2 & Hf2 & _).
  cbn [snd]. destruct (IH s2 m Hm2) as (Hl' & Hm' & Hf').
  rewrite Hl', Hm', Hf'. auto.
Qed.

(** The first call, from a process without a model in the attribute. *)
Lemma from_features_first_call features d new_lengths checkpoint gpu s r s1 :
  model_attr s = None ->
  from_features E features d new_lengths checkpoint gpu s = (r, s1) ->
  let path := match checkpoint with
              | Some p => p
              | None => default_checkpoint E
              end in
  model_attr s1 <> None /\
  loads (log s1) = S (loads (log s)) /\
  In (EvTorchLoad path) (log s1) /\
  (is_ok r = true -> frontend_attr s1 <> None) /\
  (forall e0,
     Core.read_checkpoint (fs s) path = Raise e0 ->
     r = Raise e0 /\ frontend_attr s1 = frontend_attr s /\
     model_attr s1 = Some (Model E)).
Proof.
  intros Hm H path.
  assert (Hload : forall p,
            path = p ->
            from_features E features d new_lengths
                          (Some p) gpu s = (r, s1)).
  { intros p <-. rewrite <- H. unfold path.
    destruct checkpoint; reflexivity. }
  specialize (Hload path eq_refl). clear H. revert Hload.
  generalize path. clear path. intros path.
  unfold from_features, load_into_model, the_model, the_frontend, bind, get,
    emit, set_model, set_frontend, modify, lift, ret, raise.
  rewrite Hm. simpl.
  destruct (Core.read_checkpoint (fs s) path) as [sd|e0] eqn:Hrd; simpl.
  2:{ intros [= <- <-]. simpl. rewrite !loads_cons. simpl.
      split; [congruence|]. split; [reflexivity|]. split; [auto 10|].
      split; [intros ?; congruence|]. intros e1 [= <-]. auto. }
  destruct (load_state_dict E (Model E) sd) as [m' [e|]]; simpl.
  { intros [= <- <-]. simpl. rewrite !loads_cons. simpl.
    split; [congruence|]. split; [reflexivity|]. split; [auto 10|].
    split; [intros ?; congruence|]. intros e1 [=]. }
  destruct (FRONTEND E d) as [f|e]; simpl.
  2:{ intros [= <- <-]. simpl. rewrite !loads_cons. simpl.
      split; [congruence|]. split; [reflexivity|]. split; [auto 10|].
      split; [intros ?; congruence|]. intros e1 [=]. }
  destruct (available E d); simpl.
  2:{ intros [= <- <-]. simpl. rewrite !loads_cons. simpl.
      split; [congruence|]. split; [reflexivity|]. split; [auto 10|].
      split; [intros ?; congruence|]. intros e1 [=]. }
  destruct (run_frontend E f _) as [x|e]; simpl;
    intros [= <- <-]; simpl; rewrite !loads_cons; simpl;
    (split; [congruence|]); (split; [reflexivity|]); (split; [auto 10|]);
    (split; [intros ?; congruence|]); intros e1 [=].
Qed.

(** A first call that returns has placed the model on the device of its
    features and built the front end for that device. *)
Lemma from_features_first_placement features d new_lengths checkpoint gpu
      s y s1 :
  model_attr s = None ->
  from_features E features d new_lengths checkpoint gpu s = (Ok y, s1) ->
  exists m f,
    model_attr s1 = Some m /\ Core.placed m = d /\
    frontend_attr s1 = Some f /\ FRONTEND E d = Ok f.
Proof.
  intros Hm.
  unfold from_features, load_into_model, the_model, the_frontend, bind, get,
    emit, set_model, set_frontend, modify, lift, ret, raise.
  rewrite Hm. destruct checkpoint as [path|]; simpl.
  - destruct (Core.read_checkpoint (fs s) path) as [sd|e0]; simpl;
      [|discriminate].
    destruct (load_state_dict E (Model E) sd) as [m' [e|]]; simpl;
      [discriminate|].
    destruct (FRONTEND E d) as [f|e]; simpl; [|discriminate].
    destruct (available E d); simpl; [|discriminate].
    destruct (run_frontend E f _) as [x|e]; simpl; [|discriminate].
    destruct (run_model E _ x new_lengths); intros [= <-]; subst s1.
    simpl. eauto 8.
  - destruct (Core.read_checkpoint (fs s) (default_checkpoint E))
      as [sd|e0]; simpl; [|discriminate].
    destruct (load_state_dict E (Model E) sd) as [m' [e|]]; simpl;
      [discriminate|].
    destruct (FRONTEND E d) as [f|e]; simpl; [|discriminate].
    destruct (available E d); simpl; [|discriminate].
    destruct (run_frontend E f _) as [x|e]; simpl; [|discriminate].
    destruct (run_model E _ x new_lengths); intros [= <-]; subst s1.
    simpl. eauto 8.
Qed.

End FeaturesFacts.

(** X8.  [from_features] reads a checkpoint on its first call only.  A
    first call that returns has loaded one checkpoint, the one it was given
    or [encodec.pt] of the checkpoint directory, and has placed the model
    on the device of its features, with the front end built for that
    device.  After any run of later calls, whatever they are given and
    whether they return or raise, nothing more has been loaded and the model
    and the front end are the ones of the first call, still on the device
    of the first call's features; and a call then looks at neither the
    checkpoint nor the gpu it is given. *)
Theorem from_features_reads_checkpoint_once
    (E : Features.Env) (features : tensor) (d : device) (new_lengths : tensor)
    (checkpoint : option string) (gpu : Z) (s s1 : Features.state)
    (y : tensor) :
  Features.model_attr s = None ->
  Features.from_features E features d new_lengths checkpoint gpu s
  = (Ok y, s1) ->
  Features.loads (Features.log s1) = S (Features.loads (Features.log s)) /\
  In (Features.EvTorchLoad
        (match checkpoint with
         | Some p => p
         | None => Features.default_checkpoint E
         end))
     (Features.log s1) /\
  exists m f,
    Features.model_attr s1 = Some m /\ Core.placed m = d /\
    Features.frontend_attr s1 = Some f /\ Features.FRONTEND E d = Ok f /\
    forall requests,
      Features.loads
        (Features.log (Sessions.after_features E requests s1))
      = Features.loads (Features.log s1) /\
      Features.model_attr (Sessions.after_features E requests s1) = Some m /\
      Features.frontend_attr (Sessions.after_features E requests s1)
      = Some f /\
      forall features2 d2 new_lengths2 checkpoint2 gpu2,
        Features.from_features E features2 d2 new_lengths2 checkpoint2 gpu2
                               (Sessions.after_features E requests s1)
        = Features.from_features E features2 d2 new_lengths2 checkpoint gpu
                                 (Sessions.after_features E requests s1).
Proof.
  intros Hm H.
  destruct (@from_features_first_call E _ _ _ _ _ _ _ _ Hm H)
    as (_ & Hloads & Hin & _).
  split; [exact Hloads|]. split; [exact Hin|].
  destruct (@from_features_first_placement E _ _ _ _ _ _ _ _ Hm H)
    as (m & f & Hm1 & Hplaced & Hf1 & Hfront).
  exists m, f. split; [exact Hm1|]. split; [exact Hplaced|].
  split; [exact Hf1|]. split; [exact Hfront|].
  intros requests.
  destruct (@after_features_keeps E requests s1 m Hm1) as (Hl & Hm2 & Hf2).
  split; [exact Hl|]. split; [exact Hm2|].
  split; [now rewrite Hf2|].
  intros features2 d2 new_lengths2 checkpoint2 gpu2.
  now apply from_features_ignores_arguments with (m := m).
Qed.

Lemma from_features_reads_checkpoint_once_witness :
  Features.loads
    (Features.log
       (snd (Features.from_features Samples.features_env Demo.clip Cpu
                                    Demo.clip None 0 Samples.fresh)))
  = 1.
Proof.
  destruct (Features.from_features Samples.features_env Demo.clip Cpu
                                   Demo.clip None 0 Samples.fresh)
    as [[y|e] s1] eqn:H; [|vm_compute in H; discriminate].
  exact (proj1 (@from_features_reads_checkpoint_once
                  _ _ _ _ _ _ Samples.fresh _ _ eq_refl H)).
Defined.



(* ================================================================== *)
(** * Properties of the partitioning *)
(* ================================================================== *)

Section PartitionFacts.

Import Partition.

Lemma parts_eqb_eq a b : parts_eqb a b = true <-> a = b.
Proof.
  revert b. induction a as [|x a IH]; intros [|y b]; simpl; split;
    intros H; try discriminate; try reflexivity.
  - apply andb_true_iff in H as [H1 H2].
    apply String.eqb_eq in H1. apply IH in H2. now subst.
  - injection H as -> ->. rewrite String.eqb_refl. simpl. now apply IH.
Qed.

Lemma path_eqb_eq p q : path_eqb p q = true <-> p = q.
Proof.
  unfold path_eqb. destruct p as [a ps], q as [b qs]. simpl.
  rewrite andb_true_iff, String.eqb_eq, parts_eqb_eq.
  split; [intros [-> ->]; reflexivity | intros [= -> ->]; auto].
Qed.

Lemma path_in_In p l : path_in p l = true <-> In p l.
Proof.
  unfold path_in. rewrite existsb_exists. split.
  - intros (q & Hq & Heq). apply path_eqb_eq in Heq. now subst.
  - intros H. exists p. split; [exact H | now apply path_eqb_eq].
Qed.

Lemma str_in_In s l : str_in s l = true <-> In s l.
Proof.
  unfold str_in. rewrite existsb_exists. split.
  - intros (q & Hq & Heq). apply String.eqb_eq in Heq. now subst.
  - intros H. exists s. split; [exact H | apply String.eqb_refl].
Qed.

(** The three conditions of the comprehensions exclude one another and
    leave no file out. *)
Lemma three_way_count {A} (f g : A -> bool) (l : list A) :
  length (filter (fun x => negb (f x) && negb (g x)) l)
  + length (filter g l)
  + length (filter (fun x => f x && negb (g x)) l)
  = length l.
Proof.
  induction l as [|x l IH]; [reflexivity|].
  simpl. destruct (f x), (g x); simpl; lia.
Qed.

Variable E : Partition.Env.

(** What [partition_dataset] dumps when it returns. *)
Lemma partition_dataset_dumps data_dir unseen validation partition_file s s' :
  partition_dataset E data_dir unseen validation partition_file s
  = (Ok tt, s') ->
  dumped (log s')
  = (partition_file,
     split (rglob E data_dir "*.textgrid") unseen validation)
    :: dumped (log s).
Proof.
  unfold partition_dataset, mkdir, dump, bind, emit, add_path, modify, raise.
  simpl.
  destruct (creatable E (Pathlib.parent partition_file)); simpl;
    [|discriminate].
  destruct (creatable E partition_file); simpl; [|discriminate].
  now intros [= <-].
Qed.

End PartitionFacts.

(** X10.  The partition that [partition_dataset] dumps places every text
    grid under the data directory in exactly one of its three lists: the
    lengths of [train], [valid] and [test] add up to the number of text
    grids, and a text grid is listed under [valid] when it is a validation
    file, else under [test] when its speaker is unseen, else under
    [train]. *)
Theorem partition_covers_every_textgrid
    (E : Partition.Env) (data_dir : Pathlib.Path) (unseen : list string)
    (validation : list Pathlib.Path) (partition_file : Pathlib.Path)
    (s s' : Partition.state) :
  Partition.partition_dataset E data_dir unseen validation partition_file s
  = (Ok tt, s') ->
  exists p,
    Partition.dumped (Partition.log s')
    = (partition_file, p) :: Partition.dumped (Partition.log s) /\
    length (Partition.train p) + length (Partition.valid p)
    + length (Partition.test p)
    = length (Partition.rglob E data_dir "*.textgrid") /\
    forall file,
      In file (Partition.rglob E data_dir "*.textgrid") ->
      In (Partition.entry file)
         (if Partition.path_in file validation then Partition.valid p
          else if Partition.str_in (Partition.speaker_of file) unseen
               then Partition.test p
               else Partition.train p).
Proof.
  intros H. apply partition_dataset_dumps in H.
  eexists. split; [exact H|]. unfold Partition.split.
  cbn [Partition.train Partition.valid Partition.test].
  split.
  - rewrite !length_map. apply three_way_count.
  - intros file Hin.
    destruct (Partition.path_in file validation) eqn:Hv.
    + apply in_map, filter_In. auto.
    + destruct (Partition.str_in (Partition.speaker_of file) unseen) eqn:Hu;
        apply in_map, filter_In; split; auto; now rewrite Hu, Hv.
Qed.

Lemma partition_covers_every_textgrid_witness :
  exists p,
    Partition.dumped
      (Partition.log
         (snd (Partition.arctic Samples.partition_env Samples.unpartitioned)))
    = [(Pathlib.mkPath "/" ["partitions"; "arctic.json"]%string, p)] /\
    length (Partition.train p) + length (Partition.valid p)
    + length (Partition.test p) = 3.
Proof.
  destruct (Partition.arctic Samples.partition_env Samples.unpartitioned)
    as [[[]|e] s'] eqn:H; [|vm_compute in H; discriminate].
  destruct (@partition_covers_every_textgrid _ _ _ _ _ _ _ H)
    as (p & Hd & Hlen & _).
  exists p. split; [exact Hd | exact Hlen].
Defined.

(** X11.  In the partition that [partition_dataset] dumps, every entry of
    [train] comes from a text grid whose speaker is not unseen and that is
    no validation file, every entry of [test] from a text grid of an unseen
    speaker that is no validation file, and every entry of [valid] from a
    validation file: validation files go to [valid] whoever speaks, and no
    file of an unseen speaker is trained on. *)
Theorem partition_separates_speakers
    (E : Partition.Env) (data_dir : Pathlib.Path) (unseen : list string)
    (validation : list Pathlib.Path) (partition_file : Pathlib.Path)
    (s s' : Partition.state) :
  Partition.partition_dataset E data_dir unseen validation partition_file s
  = (Ok tt, s') ->
  exists p,
    Partition.dumped (Partition.log s')
    = (partition_file, p) :: Partition.dumped (Partition.log s) /\
    (forall e, In e (Partition.train p) ->
       exists file,
         In file (Partition.rglob E data_dir "*.textgrid") /\
         e = Partition.entry file /\
         ~ In (Partition.speaker_of file) unseen /\
         ~ In file validation) /\
    (forall e, In e (Partition.test p) ->
       exists file,
         In file (Partition.rglob E data_dir "*.textgrid") /\
         e = Partition.entry file /\
         In (Partition.speaker_of file) unseen /\
         ~ In file validation) /\
    (forall e, In e (Partition.valid p) ->
       exists file,
         In file (Partition.rglob E data_dir "*.textgrid") /\
         e = Partition.entry file /\
         In file validation).
Proof.
  intros H. apply partition_dataset_dumps in H.
  eexists. split; [exact H|]. unfold Partition.split.
  cbn [Partition.train Partition.valid Partition.test].
  split; [|split]; intros e He; apply in_map_iff in He as (file & <- & Hf);
    apply filter_In in Hf as [Hin Hc]; exists file.
  - apply andb_true_iff in Hc as [Hu Hv].
    apply negb_true_iff in Hu, Hv.
    repeat split; auto.
    + intros Hx. apply str_in_In in Hx. congruence.
    + intros Hx. apply path_in_In in Hx. congruence.
  - apply andb_true_iff in Hc as [Hu Hv]. apply negb_true_iff in Hv.
    repeat split; auto.
    + now apply str_in_In.
    + intros Hx. apply path_in_In in Hx. congruence.
  - repeat split; auto. now apply path_in_In.
Qed.

Lemma partition_separates_speakers_witness :
  exists p,
    Partition.dumped
      (Partition.log
         (snd (Partition.arctic Samples.partition_env Samples.unpartitioned)))
    = [(Pathlib.mkPath "/" ["partitions"; "arctic.json"]%string, p)].
Proof.
  destruct (Partition.arctic Samples.partition_env Samples.unpartitioned)
    as [[[]|e] s'] eqn:H; [|vm_compute in H; discriminate].
  destruct (@partition_separates_speakers _ _ _ _ _ _ _ H) as (p & Hd & _).
  exists p. exact Hd.
Defined.

Section ArcticFacts.

Import Partition.

Local Open Scope string_scope.

Variable E : Partition.Env.

(** The speaker code cut out of the directory name of an unseen
    speaker is the code of that speaker, when codes have three letters. *)
Lemma code_of_unseen_speaker speaker :
  String.length speaker = 3 ->
  Pathlib.take 3 (Pathlib.drop 7 ("cmu_us_" ++ speaker ++ "_arctic"))
  = speaker.
Proof.
  intros H. change (Pathlib.drop 7 ("cmu_us_" ++ speaker ++ "_arctic"))
    with (speaker ++ "_arctic").
  rewrite <- H. apply take_app.
Qed.

Lemma validation_excludes_unseen data_dir file :
  Forall (fun speaker => String.length speaker = 3) (ARCTIC_UNSEEN E) ->
  In file (arctic_validation_files E data_dir) ->
  ~ In (speaker_of file) (arctic_unseen_speakers E).
Proof.
  intros Hlen Hin Hun. unfold arctic_validation_files in Hin.
  apply in_flat_map in Hin as (id & _ & Hin).
  apply filter_In in Hin as [_ Hcode]. apply negb_true_iff in Hcode.
  unfold arctic_unseen_speakers in Hun.
  apply in_map_iff in Hun as (speaker & Hname & Hsp).
  unfold speaker_of in Hname. rewrite <- Hname in Hcode.
  rewrite code_of_unseen_speaker in Hcode
    by (rewrite Forall_forall in Hlen; now apply Hlen).
  apply str_in_In in Hsp. congruence.
Qed.

End ArcticFacts.

(** X12.  With speaker codes of three letters, the validation files of
    [arctic()] never belong to an unseen speaker, so the partition it dumps
    to [arctic.json] keeps every text grid of every unseen speaker for
    [test]: none of them is moved to [valid]. *)
Theorem arctic_keeps_unseen_speakers_for_test
    (E : Partition.Env) (s s' : Partition.state) :
  Forall (fun speaker => String.length speaker = 3)
         (Partition.ARCTIC_UNSEEN E) ->
  Partition.arctic E s = (Ok tt, s') ->
  exists p,
    Partition.dumped (Partition.log s')
    = (Partition.joinpath E (Partition.PARTITION_DIR E) "arctic.json", p)
      :: Partition.dumped (Partition.log s) /\
    (forall file,
       In file (Partition.arctic_validation_files
                  E (Partition.joinpath E (Partition.CACHE_DIR E) "arctic")) ->
       ~ In (Partition.speaker_of file) (Partition.arctic_unseen_speakers E))
    /\
    Partition.test p
    = map Partition.entry
          (filter (fun file =>
                     Partition.str_in (Partition.speaker_of file)
                                      (Partition.arctic_unseen_speakers E))
                  (Partition.rglob
                     E (Partition.joinpath E (Partition.CACHE_DIR E) "arctic")
                     "*.textgrid")).
Proof.
  intros Hlen H. unfold Partition.arctic in H.
  apply partition_dataset_dumps in H.
  eexists. split; [exact H|]. split.
  - intros file. now apply validation_excludes_unseen.
  - unfold Partition.split. cbn [Partition.test]. f_equal.
    apply filter_ext_in. intros file _.
    destruct (Partition.str_in (Partition.speaker_of file)
                               (Partition.arctic_unseen_speakers E)) eqn:Hu;
      [|reflexivity].
    destruct (Partition.path_in file _) eqn:Hv; [|reflexivity].
    apply path_in_In in Hv. apply str_in_In in Hu.
    now apply validation_excludes_unseen in Hv.
Qed.

Lemma arctic_keeps_unseen_speakers_for_test_witness :
  exists p,
    Partition.dumped
      (Partition.log
         (snd (Partition.arctic Samples.partition_env Samples.unpartitioned)))
    = [(Pathlib.mkPath "/" ["partitions"; "arctic.json"]%string, p)] /\
    Partition.test p = ["cmu_us_bdl_arctic/arctic_a0001"%string].
Proof.
  destruct (Partition.arctic Samples.partition_env Samples.unpartitioned)
    as [[[]|e] s'] eqn:H; [|vm_compute in H; discriminate].
  assert (Hlen : Forall (fun speaker => String.length speaker = 3)
                        (Partition.ARCTIC_UNSEEN Samples.partition_env))
    by (repeat constructor).
  destruct (@arctic_keeps_unseen_speakers_for_test
              Samples.partition_env _ _ Hlen H)
    as (p & Hd & _ & Ht).
  exists p. split; [exact Hd | exact Ht].
Defined.

Section DatasetsFacts.

Import Partition.

Variable E : Partition.Env.

Lemma for_each_app {S A} (f : A -> M S unit) (l1 l2 : list A) s :
  for_each f (l1 ++ l2) s
  = bind (for_each f l1) (fun _ => for_each f l2) s.
Proof.
  revert s. induction l1 as [|x l1 IH]; intros s; [reflexivity|].
  cbn [for_each app]. unfold bind.
  destruct (f x s) as [[[]|e] s1]; [|reflexivity].
  rewrite IH. reflexivity.
Qed.

End DatasetsFacts.

(** X13.  Without [overwrite], [datasets] rewrites no partition that
    exists: when the partition file of every name in the list is there, the
    call returns after one notice per name, has dumped nothing and made no
    path, and does not even refuse the names it does not know. *)
Theorem existing_partitions_are_skipped
    (E : Partition.Env) (names : list string) (s : Partition.state) :
  Forall (fun name =>
            Partition.present
              s (Partition.joinpath E (Partition.PARTITION_DIR E)
                                    (name ++ ".json")) = true)
         names ->
  exists s',
    Partition.datasets E names false s = (Ok tt, s') /\
    Partition.present s' = Partition.present s /\
    Partition.dumped (Partition.log s') = Partition.dumped (Partition.log s) /\
    length (Partition.log s') = length names + length (Partition.log s).
Proof.
  revert s. induction names as [|name names IH]; intros s Hall.
  - exists s. repeat split; reflexivity.
  - inversion Hall as [|? ? Hname Hrest]; subst.
    destruct (IH (Partition.mkState
                    (Partition.present s)
                    (Partition.EvPrint
                       (Partition.joinpath E (Partition.PARTITION_DIR E)
                                           (name ++ ".json"))
                     :: Partition.log s)) Hrest)
      as (s' & Hrun & Hp & Hd & Hl).
    exists s'. unfold Partition.datasets in *. cbn [for_each].
    unfold bind at 1. unfold Partition.partition_one at 1, bind at 1, get.
    rewrite Hname. cbn [andb negb]. unfold Partition.emit, modify.
    rewrite Hrun. split; [reflexivity|]. split; [exact Hp|].
    split; [exact Hd|]. rewrite Hl. simpl. lia.
Qed.

Lemma existing_partitions_are_skipped_witness :
  exists s',
    Partition.datasets Samples.partition_env ["arctic"%string] false
                       Samples.partitioned = (Ok tt, s') /\
    Partition.dumped (Partition.log s') = [].
Proof.
  destruct (@existing_partitions_are_skipped
              Samples.partition_env ["arctic"%string] Samples.partitioned)
    as (s' & Hrun & _ & Hd & _).
  { repeat constructor. }
  exists s'. split; [exact Hrun | exact Hd].
Defined.

(** X14.  A name that lower-cases to neither [arctic] nor [timit], and
    whose partition is to be made, stops [datasets] with
    [NotImplementedError]: the names before it have been dealt with, the
    names after it are not looked at, and the failing step itself dumps
    nothing and makes no path. *)
Theorem unknown_dataset_stops_the_loop
    (E : Partition.Env) (before after : list string) (bad : string)
    (overwrite : bool) (s s1 : Partition.state) :
  Partition.datasets E before overwrite s = (Ok tt, s1) ->
  Partition.present
    s1 (Partition.joinpath E (Partition.PARTITION_DIR E) (bad ++ ".json"))
  && negb overwrite = false ->
  Partition.lower bad <> "arctic"%string ->
  Partition.lower bad <> "timit"%string ->
  exists s',
    Partition.datasets E (before ++ bad :: after) overwrite s
    = (Raise (Exn (OtherError "NotImplementedError") [] None), s') /\
    Partition.present s' = Partition.present s1 /\
    Partition.dumped (Partition.log s') = Partition.dumped (Partition.log s1).
Proof.
  intros Hbefore Hguard Ha Ht. unfold Partition.datasets in *.
  rewrite for_each_app. unfold bind at 1. rewrite Hbefore.
  cbn [for_each]. unfold bind at 1.
  unfold Partition.partition_one, bind, get. rewrite Hguard.
  apply String.eqb_neq in Ha, Ht. rewrite Ha, Ht.
  unfold Partition.emit, modify, raise. eexists. split; [reflexivity|].
  split; reflexivity.
Qed.

Lemma unknown_dataset_stops_the_loop_witness :
  exists s',
    Partition.datasets Samples.partition_env
                       (["arctic"%string] ++ "librispeech"%string
                                          :: ["timit"%string])
                       false Samples.partitioned
    = (Raise (Exn (OtherError "NotImplementedError") [] None), s').
Proof.
  destruct (Partition.datasets Samples.partition_env ["arctic"%string] false
                               Samples.partitioned)
    as [[[]|e] s1] eqn:H; [|vm_compute in H; discriminate].
  destruct (@unknown_dataset_stops_the_loop
              Samples.partition_env ["arctic"%string] ["timit"%string]
              "librispeech"%string false Samples.partitioned s1 H)
    as (s' & Hrun & _).
  - injection H as <-. reflexivity.
  - discriminate.
  - discriminate.
  - exists s'. exact Hrun.
Defined.

(** X15.  [datasets] decides what to partition by the lower-cased name
    but looks for the existing partition under the name as it was given.
    For a name that lower-cases to [arctic] and has no partition file of
    its own spelling, a step without [overwrite] that returns has dumped
    [arctic.json], whether or not [arctic.json] was there. *)
Theorem overwrite_guard_uses_the_given_spelling
    (E : Partition.Env) (name : string) (s s' : Partition.state) :
  Partition.lower name = "arctic"%string ->
  Partition.present
    s (Partition.joinpath E (Partition.PARTITION_DIR E) (name ++ ".json"))
  = false ->
  Partition.partition_one E false name s = (Ok tt, s') ->
  exists p,
    Partition.dumped (Partition.log s')
    = (Partition.joinpath E (Partition.PARTITION_DIR E) "arctic.json", p)
      :: Partition.dumped (Partition.log s).
Proof.
  intros Hlow Hfile H.
  unfold Partition.partition_one, bind at 1, get in H.
  rewrite Hfile, Hlow in H. cbn [andb String.eqb] in H.
  apply bind_inv_ok in H as ([] & s0 & H0 & H). injection H0 as <-.
  replace (String.eqb "arctic" "arctic") with true in H by reflexivity.
  unfold Partition.arctic in H. apply partition_dataset_dumps in H.
  eexists. exact H.
Qed.

Lemma overwrite_guard_uses_the_given_spelling_witness :
  Partition.present
    Samples.partitioned
    (Pathlib.mkPath "/" ["partitions"; "arctic.json"]%string) = true /\
  exists p,
    Partition.dumped
      (Partition.log
         (snd (Partition.partition_one Samples.partition_env false
                                       "ARCTIC" Samples.partitioned)))
    = [(Pathlib.mkPath "/" ["partitions"; "arctic.json"]%string, p)].
Proof.
  split; [reflexivity|].
  destruct (Partition.partition_one Samples.partition_env false "ARCTIC"
                                    Samples.partitioned)
    as [[[]|e] s'] eqn:H; [|vm_compute in H; discriminate].
  destruct (@overwrite_guard_uses_the_given_spelling
              Samples.partition_env "ARCTIC"%string Samples.partitioned s'
              eq_refl eq_refl H) as (p & Hd).
  exists p. exact Hd.
Defined.

(* ================================================================== *)
(** * Properties of [download_timit] *)
(* ================================================================== *)

Lemma extractions_cons ev l :
  Download.extractions (ev :: l) =
  (match ev with Download.EvExtract _ _ => 1 | _ => 0 end)
  + Download.extractions l.
Proof. unfold Download.extractions. destruct ev; reflexivity. Qed.

Section DownloadFacts.

Import Download.

Variable E : Download.Env.

(** One frame of [download_timit]. *)
Lemma download_timit_frame depth timit_source :
  download_timit E (S depth) timit_source =
  download_timit_body E (download_timit E depth timit_source) timit_source.
Proof. reflexivity. Qed.

(** The body runs [recurse] only in states where [timit] is there. *)
Lemma download_timit_body_ext (rec1 rec2 : M state unit) timit_source s :
  (forall s2,
     present s2 (joinpath E (SOURCES_DIR E) "timit") = true ->
     rec1 s2 = rec2 s2) ->
  download_timit_body E rec1 timit_source s
  = download_timit_body E rec2 timit_source s.
Proof.
  intros Hrec.
  unfold download_timit_body, bind, emit, on_files, modify, get, ret, raise.
  simpl.
  destruct (mkdir_p E (SOURCES_DIR E) (present s)); [|reflexivity].
  destruct (choose_source E timit_source _) as [[[chosen [idx|]]|e] s2];
    try reflexivity.
  simpl.
  destruct (0 <? idx)%nat; [|reflexivity]. simpl.
  destruct (extractall E chosen (SOURCES_DIR E) (present s2)); [|reflexivity].
  simpl.
  destruct (_ (joinpath E (SOURCES_DIR E) "timit")) eqn:Hthere;
    [|reflexivity].
  apply Hrec. exact Hthere.
Qed.

(** With [timit] there, a call without a source makes the sources
    directory, announces [timit] and returns, whatever depth is left. *)
Lemma download_timit_when_present depth s :
  (forall files files',
     mkdir_p E (SOURCES_DIR E) files = Ok files' ->
     files (joinpath E (SOURCES_DIR E) "timit") = true ->
     files' (joinpath E (SOURCES_DIR E) "timit") = true) ->
  present s (joinpath E (SOURCES_DIR E) "timit") = true ->
  download_timit E (S depth) None s =
  match mkdir_p E (SOURCES_DIR E) (present s) with
  | Ok files' =>
      (Ok tt,
       mkState files'
               (EvUsing (joinpath E (SOURCES_DIR E) "timit")
                :: EvMkdir (SOURCES_DIR E) :: log s))
  | Raise e => (Raise e, mkState (present s) (EvMkdir (SOURCES_DIR E) :: log s))
  end.
Proof.
  intros Hkeep Hthere. rewrite download_timit_frame.
  unfold download_timit_body, choose_source, bind, emit, on_files, modify,
    get, ret, raise.
  cbn [present log].
  destruct (mkdir_p E (SOURCES_DIR E) (present s)) as [files'|e] eqn:Hmk;
    [|reflexivity].
  cbn [present log].
  change (possible_paths E)
    with (joinpath E (SOURCES_DIR E) "timit"
          :: map (joinpath E (SOURCES_DIR E)) (tl possible_files)).
  cbn [map index_true]. rewrite (Hkeep _ _ Hmk Hthere). reflexivity.
Qed.

Lemma on_files_inv op s r s1 :
  on_files op s = (r, s1) ->
  (exists files, op (present s) = Ok files /\ r = Ok tt /\
                 s1 = mkState files (log s)) \/
  (exists e, op (present s) = Raise e /\ r = Raise e /\ s1 = s).
Proof.
  unfold on_files. destruct (op (present s)) as [files|e];
    intros [= <- <-]; eauto 6.
Qed.

(** Choosing among the candidates changes nothing, and the candidate of
    index 0 is [timit]. *)
Lemma choose_source_none_inv s r s1 :
  choose_source E None s = (r, s1) ->
  s1 = s /\
  forall chosen i,
    r = Ok (chosen, i) ->
    exists idx, i = Some idx /\
      (idx = 0 -> present s (joinpath E (SOURCES_DIR E) "timit") = true).
Proof.
  unfold choose_source, bind, get, ret, raise.
  change (possible_paths E)
    with (joinpath E (SOURCES_DIR E) "timit"
          :: map (joinpath E (SOURCES_DIR E)) (tl possible_files)).
  cbn [map index_true].
  destruct (present s (joinpath E (SOURCES_DIR E) "timit")) eqn:Hthere.
  - intros [= <- <-]. split; [reflexivity|].
    intros chosen i [= <- <-]. eauto.
  - destruct (index_true _) as [idx|]; intros [= <- <-];
      (split; [reflexivity|]); intros chosen i [=]. subst.
    exists (S idx). split; [reflexivity | discriminate].
Qed.

(** One frame without a source, when the recursive call unpacks nothing
    and returns only with [timit] there. *)
Lemma download_timit_body_bound (recurse : M state unit) s r s' :
  (forall s2 r2 s3,
     present s2 (joinpath E (SOURCES_DIR E) "timit") = true ->
     recurse s2 = (r2, s3) ->
     extractions (log s3) = extractions (log s2) /\
     (r2 = Ok tt ->
      present s3 (joinpath E (SOURCES_DIR E) "timit") = true)) ->
  (forall files files',
     mkdir_p E (SOURCES_DIR E) files = Ok files' ->
     files (joinpath E (SOURCES_DIR E) "timit") = true ->
     files' (joinpath E (SOURCES_DIR E) "timit") = true) ->
  download_timit_body E recurse None s = (r, s') ->
  extractions (log s') <= S (extractions (log s)) /\
  (r = Ok tt -> present s' (joinpath E (SOURCES_DIR E) "timit") = true).
Proof.
  intros Hrec Hkeep H. unfold download_timit_body in H.
  apply bind_inv in H as [([] & s0 & H0 & H)|(e & H0 & _)]; [|discriminate].
  injection H0 as <-.
  apply bind_inv in H as [([] & s1 & H1 & H)|(e & H1 & ->)].
  2:{ apply on_files_inv in H1 as [(files & _ & Hr & _)|(e' & _ & _ & ->)];
        [discriminate|].
      cbn [log]. rewrite extractions_cons. split; [simpl; lia|discriminate]. }
  apply on_files_inv in H1 as [(files & Hmk & _ & ->)|(e' & _ & Hr & _)];
    [|discriminate].
  cbn [present log] in Hmk.
  apply bind_inv in H as [([chosen i] & s2 & H2 & H)|(e & H2 & ->)].
  2:{ apply choose_source_none_inv in H2 as [-> _]. cbn [log].
      rewrite extractions_cons. split; [simpl; lia|discriminate]. }
  apply choose_source_none_inv in H2 as [-> Hidx].
  destruct (Hidx chosen i eq_refl) as (idx & -> & Hzero).
  cbn [present] in Hzero.
  apply bind_inv in H as [([] & s3 & H3 & H)|(e & H3 & _)]; [|discriminate].
  injection H3 as <-.
  destruct idx as [|idx].
  - cbn [Nat.ltb Nat.leb] in H. injection H as <- <-. cbn [log present].
    rewrite !extractions_cons. split; [simpl; lia|]. intros _. now apply Hzero.
  - cbn [Nat.ltb Nat.leb] in H.
    apply bind_inv in H as [([] & s4 & H4 & H)|(e & H4 & _)]; [|discriminate].
    injection H4 as <-.
    apply bind_inv in H as [([] & s5 & H5 & H)|(e & H5 & _)]; [|discriminate].
    injection H5 as <-.
    apply bind_inv in H as [([] & s6 & H6 & H)|(e & H6 & ->)].
    2:{ apply on_files_inv in H6 as [(fs6 & _ & Hr & _)|(e' & _ & _ & ->)];
          [discriminate|].
        cbn [log]. rewrite !extractions_cons.
        split; [simpl; lia|discriminate]. }
    apply on_files_inv in H6 as [(fs6 & _ & _ & ->)|(e' & _ & Hr & _)];
      [|discriminate].
    cbn [present log] in H.
    apply bind_inv in H as [(s7 & s8 & H7 & H)|(e & H7 & _)]; [|discriminate].
    injection H7 as <- <-.
    cbn [present] in H.
    destruct (fs6 (joinpath E (SOURCES_DIR E) "timit")) eqn:Hthere.
    + apply bind_inv in H as [([] & s9 & H9 & H)|(e & H9 & _)];
        [|discriminate].
      injection H9 as <-.
      apply Hrec in H as [Hex Hok]; [|exact Hthere].
      cbn [log] in Hex. rewrite !extractions_cons in Hex.
      split; [simpl in Hex; lia | exact Hok].
    + apply bind_inv in H as [([] & s9 & H9 & _)|(e & H9 & ->)];
        [discriminate|].
      injection H9 as _ <-. cbn [log]. rewrite !extractions_cons.
      split; [simpl; lia|discriminate].
Qed.

End DownloadFacts.

(** X16.  [download_timit] never returns normally when it is given a
    source: its index variable is assigned only when no source is given.
    Whatever the depth and the state, the call raises and unpacks nothing;
    when the sources directory can be made and the given source exists,
    what it raises is [UnboundLocalError]. *)
Theorem download_timit_with_source_always_raises
    (E : Download.Env) (depth : nat) (source : Pathlib.Path)
    (s : Download.state) :
  is_ok (fst (Download.download_timit E depth (Some source) s)) = false /\
  Download.extractions
    (Download.log (snd (Download.download_timit E depth (Some source) s)))
  = Download.extractions (Download.log s) /\
  (forall files',
     depth <> 0 ->
     Download.mkdir_p E (Download.SOURCES_DIR E) (Download.present s)
     = Ok files' ->
     files' source = true ->
     fst (Download.download_timit E depth (Some source) s)
     = Raise (Exn (OtherError "UnboundLocalError") [] None)).
Proof.
  destruct depth as [|depth].
  - split; [reflexivity|]. split; [reflexivity|]. intros files' H. congruence.
  - rewrite download_timit_frame.
    unfold Download.download_timit_body, Download.choose_source, bind,
      Download.emit, Download.on_files, modify, get, ret, raise.
    cbn [Download.present Download.log].
    destruct (Download.mkdir_p E (Download.SOURCES_DIR E)
                               (Download.present s)) as [files|e].
    + cbn [Download.present Download.log].
      destruct (files source) eqn:Hsrc; cbn [fst snd Download.log is_ok];
        rewrite ?extractions_cons; cbn [Nat.add].
      * split; [reflexivity|]. split; [reflexivity|]. intros; reflexivity.
      * split; [reflexivity|]. split; [reflexivity|].
        intros files' _ [= <-]. congruence.
    + cbn [fst snd Download.log is_ok]. rewrite ?extractions_cons.
      split; [reflexivity|]. split; [reflexivity|]. intros files' _ [=].
Qed.

Lemma download_timit_with_source_always_raises_witness :
  fst (Download.download_timit
         Samples.download_env 3
         (Some (Pathlib.mkPath "/" ["sources"; "timit.tgz"]%string)) Samples.only_archive)
  = Raise (Exn (OtherError "UnboundLocalError"%string) [] None).
Proof.
  apply (proj2 (proj2 (download_timit_with_source_always_raises
                         Samples.download_env 3
                         (Pathlib.mkPath "/" ["sources"; "timit.tgz"]%string)
                         Samples.only_archive)) _
               (fun H => Nat.neq_succ_0 2 H) eq_refl eq_refl).
Defined.

(** X17.  Without a source, [download_timit] calls itself at most once.
    On a file system where making the sources directory removes nothing,
    two frames are all it ever uses: the outcome with any larger depth is
    the outcome with depth two.  It unpacks at most one archive, and when
    it returns, [timit] is there under the sources directory. *)
Theorem download_timit_recurses_at_most_once
    (E : Download.Env) (depth : nat) (s : Download.state) :
  (forall files files',
     Download.mkdir_p E (Download.SOURCES_DIR E) files = Ok files' ->
     files (Download.joinpath E (Download.SOURCES_DIR E) "timit") = true ->
     files' (Download.joinpath E (Download.SOURCES_DIR E) "timit") = true) ->
  Download.download_timit E (S (S depth)) None s
  = Download.download_timit E 2 None s /\
  Download.extractions
    (Download.log (snd (Download.download_timit E 2 None s)))
  <= S (Download.extractions (Download.log s)) /\
  (fst (Download.download_timit E 2 None s) = Ok tt ->
   Download.present
     (snd (Download.download_timit E 2 None s))
     (Download.joinpath E (Download.SOURCES_DIR E) "timit") = true).
Proof.
  intros Hkeep.
  assert (Hrec : forall d s2,
            Download.present
              s2 (Download.joinpath E (Download.SOURCES_DIR E) "timit")
            = true ->
            Download.download_timit E (S d) None s2
            = Download.download_timit E 1 None s2).
  { intros d s2 H2.
    now rewrite !(download_timit_when_present E _ s2 Hkeep H2). }
  split; [|split].
  - rewrite (download_timit_frame E (S depth)), (download_timit_frame E 1).
    apply download_timit_body_ext. intros s2 H2. now apply Hrec.
  - destruct (Download.download_timit E 2 None s) as [r s'] eqn:H.
    rewrite download_timit_frame in H.
    apply download_timit_body_bound in H; [exact (proj1 H)| |exact Hkeep].
    intros s2 r2 s3 H2.
    rewrite (download_timit_when_present E 0 s2 Hkeep H2).
    destruct (Download.mkdir_p E (Download.SOURCES_DIR E)
                               (Download.present s2)) as [files|e] eqn:Hmk;
      intros [= <- <-]; cbn [Download.log Download.present];
      rewrite !extractions_cons; (split; [reflexivity|]).
    + intros _. exact (Hkeep _ _ Hmk H2).
    + discriminate.
  - destruct (Download.download_timit E 2 None s) as [r s'] eqn:H.
    rewrite download_timit_frame in H.
    apply download_timit_body_bound in H; [exact (proj2 H)| |exact Hkeep].
    intros s2 r2 s3 H2.
    rewrite (download_timit_when_present E 0 s2 Hkeep H2).
    destruct (Download.mkdir_p E (Download.SOURCES_DIR E)
                               (Download.present s2)) as [files|e] eqn:Hmk;
      intros [= <- <-]; cbn [Download.log Download.present];
      rewrite !extractions_cons; (split; [reflexivity|]).
    + intros _. exact (Hkeep _ _ Hmk H2).
    + discriminate.
Qed.

Lemma download_timit_recurses_at_most_once_witness :
  Download.download_timit Samples.download_env 5 None Samples.only_archive
  = Download.download_timit Samples.download_env 2 None Samples.only_archive /\
  fst (Download.download_timit Samples.download_env 2 None
                               Samples.only_archive) = Ok tt /\
  Download.extractions
    (Download.log (snd (Download.download_timit Samples.download_env 2 None
                                                Samples.only_archive))) = 1.
Proof.
  split; [|split; reflexivity].
  apply (proj1 (download_timit_recurses_at_most_once
                  Samples.download_env 3 Samples.only_archive
                  (fun files files' Hmk Hthere =>
                     match Hmk in _ = r
                           return match r with
                                  | Ok f => f _ = true
                                  | Raise _ => True
                                  end
                     with
                     | eq_refl =>
                         eq_trans (f_equal (orb _) Hthere) (orb_true_r _)
                     end))).
Defined.
